(** * doodle-platform: the canvas component's fill tool and undo history

    A shallow embedding of [src/CanvasComponent.tsx]: the colour helpers
    ([hexToRgba], [colorsMatch]), the stack-based [floodFill] and the
    undo history kept in the [historyState] of [CanvasComponent]
    ([saveCanvasState], [undo], [canUndo], [clearCanvas]).

    Conventions.
    - A JavaScript number that holds an integer is a [Z]. A pointer
      coordinate is a [Number]: a rational ([Q]), an infinity or [NaN], all
      of which [getMouseCoordinates] can yield. The functions on [Q], with
      [Math.floor] as [Qfloor], are the code on finite coordinates;
      [floodFillJS] is [floodFill] on every number and agrees with it on the
      finite ones.
    - [undefined] (a typed-array read outside the array) is [None].
    - A string is a [string] of 8-bit code units.
    - The [while] loop of [floodFill] is a [Fixpoint] on a fuel argument;
      [None] means that the fuel ran out before the stack was empty.
    - A [HistoryState] is one value of the state [historyState]. The
      functions on it are the updates the component queues and what a call
      does on a handle that was just rendered; a [Handle] keeps apart the
      state the component was rendered with, which [undo] and [canUndo]
      read, and the latest state, which the updates are applied to.
    - A call that throws is [Threw] and one that does not return within the
      fuel is [OutOfFuel]: [getImageData] throws on a canvas of width or
      height 0. *)

From Stdlib Require Import ZArith QArith Qround Lia Ascii String.
From stdpp Require Import base list strings.

Local Open Scope Z_scope.

(** ** JavaScript primitives used by the component *)

Module JS.

(** [ToInt32] of a finite integral Number. *)
Definition toInt32 (v : Z) : Z :=
  let m := v mod 2 ^ 32 in
  if 2 ^ 31 <=? m then m - 2 ^ 32 else m.

(** The Number nearest to the mathematical integer [v] (round to nearest,
    ties to even, 53 bits of significand); [None] when the result is
    not finite. *)
Definition toNumber (v : Z) : option Z :=
  let a := Z.abs v in
  if a <? 2 ^ 53 then Some v
  else
    let e := Z.log2 a - 52 in
    let m := Z.shiftr a e in
    let r := a - Z.shiftl m e in
    let half := Z.shiftl 1 (e - 1) in
    let m' := if (half <? r) || ((half =? r) && Z.odd m) then m + 1 else m in
    let a' := Z.shiftl m' e in
    if 2 ^ 1024 <=? a' then None else Some (Z.sgn v * a').

(** [StrWhiteSpaceChar], as far as 8-bit code units go. *)
Definition isWhiteSpace (c : ascii) : bool :=
  let n := Z.of_nat (nat_of_ascii c) in
  ((9 <=? n) && (n <=? 13)) || (n =? 32) || (n =? 160).

(** The value of a radix-16 digit. *)
Definition hexDigitValue (c : ascii) : option Z :=
  let n := Z.of_nat (nat_of_ascii c) in
  if (48 <=? n) && (n <=? 57) then Some (n - 48)
  else if (65 <=? n) && (n <=? 70) then Some (n - 55)
  else if (97 <=? n) && (n <=? 102) then Some (n - 87)
  else None.

Fixpoint trimStart (s : string) : string :=
  match s with
  | String c s' => if isWhiteSpace c then trimStart s' else s
  | EmptyString => EmptyString
  end.

(** The longest prefix of radix-16 digits of [s], read as a number on top
    of the digits [acc] already read; [seen] tells whether there was a
    digit at all. *)
Fixpoint parseDigits (s : string) (seen : bool) (acc : Z) : option Z :=
  match s with
  | String c s' =>
      match hexDigitValue c with
      | Some d => parseDigits s' true (acc * 16 + d)
      | None => if seen then Some acc else None
      end
  | EmptyString => if seen then Some acc else None
  end.

Definition stripSign (s : string) : Z * string :=
  match s with
  | String "-" s' => (-1, s')
  | String "+" s' => (1, s')
  | _ => (1, s)
  end.

Definition stripHexPrefix (s : string) : string :=
  match s with
  | String "0" (String "x" s') => s'
  | String "0" (String "X" s') => s'
  | _ => s
  end.

(** [parseInt(s, 16)]; [None] is a Number that is not finite ([NaN] when
    there is no digit, an infinity when the digits overflow). *)
Definition parseInt16 (s : string) : option Z :=
  let '(sign, s1) := stripSign (trimStart s) in
  match parseDigits (stripHexPrefix s1) false 0 with
  | Some mathInt => toNumber (sign * mathInt)
  | None => None
  end.

(** [n >> k] and [n & m] on Numbers: both go through [ToInt32], which maps
    every Number that is not finite to 0. *)
Definition int32_of (n : option Z) : Z :=
  match n with Some v => toInt32 v | None => 0 end.

Definition sar (n : option Z) (k : Z) : option Z :=
  Some (Z.shiftr (int32_of n) k).

Definition band (n : option Z) (m : Z) : Z :=
  Z.land (int32_of n) (toInt32 m).

(** [s.replace(pat, "")] for a one-character string pattern: the first
    occurrence is removed, the rest is kept. *)
Fixpoint removeFirst (pat : ascii) (s : string) : string :=
  match s with
  | String c s' => if Ascii.eqb c pat then s' else String c (removeFirst pat s')
  | EmptyString => EmptyString
  end.

(** A value stored into a [Uint8ClampedArray]. *)
Definition clamp8 (v : Z) : Z := Z.max 0 (Z.min 255 v).

(** [a[idx]]: [undefined] outside the array. *)
Definition index {A : Type} (a : list A) (idx : Z) : option A :=
  if idx <? 0 then None else a !! Z.to_nat idx.

(** [a[idx] = v] on a [Uint8ClampedArray]: the value is clamped, and a
    write outside the array is ignored. *)
Definition store (a : list Z) (idx : Z) (v : Z) : list Z :=
  if idx <? 0 then a else <[Z.to_nat idx := clamp8 v]> a.

(** [a === b] on values that are a number or [undefined]. *)
Definition strictEq (a b : option Z) : bool :=
  match a, b with
  | Some x, Some y => x =? y
  | None, None => true
  | _, _ => false
  end.

(** [a.slice(0, end)]: a negative [end] counts from the end of [a]. *)
Definition slice0 {A : Type} (a : list A) (endIdx : Z) : list A :=
  let len := Z.of_nat (length a) in
  let final := if endIdx <? 0 then Z.max (len + endIdx) 0 else Z.min endIdx len in
  take (Z.to_nat final) a.

(** [a.shift()]: the array without its first element. *)
Definition shift {A : Type} (a : list A) : list A := drop 1 a.

End JS.

(** ** Helpers for fill *)

Definition RGBA : Type := Z * Z * Z * Z.

Definition hexToRgba (hex : string) : RGBA :=
  let clean := JS.removeFirst "#" hex in
  let bigint := JS.parseInt16 clean in
  let r := JS.band (JS.sar bigint 16) 255 in
  let g := JS.band (JS.sar bigint 8) 255 in
  let b := JS.band bigint 255 in
  (r, g, b, 255).

(** The text [#RRGGBB] of a colour, in upper- or lower-case digits. *)
Definition hexDigitChar (upper : bool) (n : Z) : ascii :=
  ascii_of_nat (Z.to_nat (if n <? 10 then 48 + n else (if upper then 55 else 87) + n)).

Definition hexByte (upper : bool) (v : Z) (rest : string) : string :=
  String (hexDigitChar upper (v / 16)) (String (hexDigitChar upper (v mod 16)) rest).

Definition hexColor (upper : bool) (R G B : Z) : string :=
  String "#" (hexByte upper R (hexByte upper G (hexByte upper B EmptyString))).


(** [new Uint8ClampedArray(fillColor)]. *)
Definition clampedArray (c : RGBA) : list Z :=
  let '(r, g, b, a) := c in [JS.clamp8 r; JS.clamp8 g; JS.clamp8 b; JS.clamp8 a].

Definition colorsMatch (a b : list Z) (idx : Z) : bool :=
  JS.strictEq (JS.index a idx) (JS.index b 0) &&
  JS.strictEq (JS.index a (idx + 1)) (JS.index b 1) &&
  JS.strictEq (JS.index a (idx + 2)) (JS.index b 2) &&
  JS.strictEq (JS.index a (idx + 3)) (JS.index b 3).

(** ** Flood fill *)

(** The 2D context of the canvas: the size of its canvas and the RGBA bytes
    of the surface, row by row, four bytes a pixel. *)
Record Context2D := mkContext2D {
  canvas_width : Z;
  canvas_height : Z;
  surface : list Z
}.

(** [ctx.getImageData(0, 0, width, height).data] where the call returns,
    that is on a canvas whose width and height are not 0: a copy of the
    surface. [getImageDataJS] is the call on every canvas, with its
    exception. *)
Definition getImageData (ctx : Context2D) : list Z := surface ctx.

(** [ctx.putImageData(imageData, 0, 0)]: the surface is replaced. *)
Definition putImageData (ctx : Context2D) (data : list Z) : Context2D :=
  {| canvas_width := canvas_width ctx; canvas_height := canvas_height ctx;
     surface := data |}.

(** A colour read from the buffer; a channel read outside it is [undefined]. *)
Definition Sample : Type := option Z * option Z * option Z * option Z.

Definition readColor (data : list Z) (idx : Z) : Sample :=
  (JS.index data idx, JS.index data (idx + 1),
   JS.index data (idx + 2), JS.index data (idx + 3)).

(** The test [xi < 0 || xi >= width || yi < 0 || yi >= height]. *)
Definition outOfBounds (width height xi yi : Z) : bool :=
  (xi <? 0) || (width <=? xi) || (yi <? 0) || (height <=? yi).

(** The test that guards the fill of the pixel at [idx]. *)
Definition fillTest (data : list Z) (targetColor : Sample) (fillColor : RGBA)
    (idx : Z) : bool :=
  let '(t0, t1, t2, t3) := targetColor in
  negb (colorsMatch data (clampedArray fillColor) idx) &&
  JS.strictEq (JS.index data idx) t0 &&
  JS.strictEq (JS.index data (idx + 1)) t1 &&
  JS.strictEq (JS.index data (idx + 2)) t2 &&
  JS.strictEq (JS.index data (idx + 3)) t3.

(** The four stores that fill the pixel at [idx]. *)
Definition fillPixel (data : list Z) (fillColor : RGBA) (idx : Z) : list Z :=
  let '(f0, f1, f2, f3) := fillColor in
  let data := JS.store data idx f0 in
  let data := JS.store data (idx + 1) f1 in
  let data := JS.store data (idx + 2) f2 in
  JS.store data (idx + 3) f3.

(** The neighbours pushed after a fill; the head of the list is the top of
    the stack, so the last one pushed comes first. *)
Definition pushNeighbors (xi yi : Z) (stack : list (Q * Q)) : list (Q * Q) :=
  (inject_Z xi, inject_Z (yi - 1)) :: (inject_Z xi, inject_Z (yi + 1)) ::
  (inject_Z (xi - 1), inject_Z yi) :: (inject_Z (xi + 1), inject_Z yi) :: stack.

(** The loop [while (stack.length) { ... }]. *)
Fixpoint floodLoop (fuel : nat) (width height : Z) (targetColor : Sample)
    (fillColor : RGBA) (stack : list (Q * Q)) (data : list Z) : option (list Z) :=
  match fuel with
  | O => None
  | S fuel' =>
      match stack with
      | [] => Some data
      | (x, y) :: stack' =>
          let xi := Qfloor x in
          let yi := Qfloor y in
          let idx := (yi * width + xi) * 4 in
          if outOfBounds width height xi yi then
            floodLoop fuel' width height targetColor fillColor stack' data
          else if fillTest data targetColor fillColor idx then
            floodLoop fuel' width height targetColor fillColor
              (pushNeighbors xi yi stack') (fillPixel data fillColor idx)
          else
            floodLoop fuel' width height targetColor fillColor stack' data
      end
  end.

(** What one run of the loop did, besides the buffer it leaves: the pixels it
    filled, the latest first, and the number of iterations of the loop. *)
Record LoopLog := mkLoopLog {
  log_data : list Z;
  log_filled : list (Z * Z);
  log_iterations : nat
}.

(** The loop again, keeping the log of its fills and iterations. *)
Fixpoint floodLoopLog (fuel : nat) (width height : Z) (targetColor : Sample)
    (fillColor : RGBA) (stack : list (Q * Q)) (data : list Z)
    (filled : list (Z * Z)) (iterations : nat) : option LoopLog :=
  match fuel with
  | O => None
  | S fuel' =>
      match stack with
      | [] => Some (mkLoopLog data filled iterations)
      | (x, y) :: stack' =>
          let xi := Qfloor x in
          let yi := Qfloor y in
          let idx := (yi * width + xi) * 4 in
          if outOfBounds width height xi yi then
            floodLoopLog fuel' width height targetColor fillColor stack' data
              filled (S iterations)
          else if fillTest data targetColor fillColor idx then
            floodLoopLog fuel' width height targetColor fillColor
              (pushNeighbors xi yi stack') (fillPixel data fillColor idx)
              ((xi, yi) :: filled) (S iterations)
          else
            floodLoopLog fuel' width height targetColor fillColor stack' data
              filled (S iterations)
      end
  end.

(** The test [targetColor[i] === fillColor[i]] for the four channels. *)
Definition sameColor (targetColor : Sample) (fillColor : RGBA) : bool :=
  let '(t0, t1, t2, t3) := targetColor in
  let '(f0, f1, f2, f3) := fillColor in
  JS.strictEq t0 (Some f0) && JS.strictEq t1 (Some f1) &&
  JS.strictEq t2 (Some f2) && JS.strictEq t3 (Some f3).

(** [floodFill] on a finite seed, from the buffer [getImageData] returns:
    the canvas after the call. [floodFillJS] is the call for every number
    and every canvas; on a finite seed and a canvas that is not empty it is
    this function. *)
Definition floodFill (fuel : nat) (ctx : Context2D) (startX startY : Q)
    (fillHex : string) : option Context2D :=
  let width := canvas_width ctx in
  let height := canvas_height ctx in
  let data := getImageData ctx in
  let targetIdx := (Qfloor startY * width + Qfloor startX) * 4 in
  let targetColor := readColor data targetIdx in
  let fillColor := hexToRgba fillHex in
  if sameColor targetColor fillColor then Some ctx
  else
    match floodLoop fuel width height targetColor fillColor
            [(startX, startY)] data with
    | Some data' => Some (putImageData ctx data')
    | None => None
    end.

(** The log of the loop of a call of [floodFill]; no loop is run when the
    seed already has the fill colour. *)
Definition floodFillLog (fuel : nat) (ctx : Context2D) (startX startY : Q)
    (fillHex : string) : option LoopLog :=
  let width := canvas_width ctx in
  let height := canvas_height ctx in
  let data := getImageData ctx in
  let targetIdx := (Qfloor startY * width + Qfloor startX) * 4 in
  let targetColor := readColor data targetIdx in
  let fillColor := hexToRgba fillHex in
  if sameColor targetColor fillColor then Some (mkLoopLog data [] 0)
  else
    floodLoopLog fuel width height targetColor fillColor
      [(startX, startY)] data [] 0.

(** *** The words of the specification about the surface *)

(** The buffer has four bytes for each pixel of a [width] by [height] grid. *)
Definition wellFormed (ctx : Context2D) : Prop :=
  0 <= canvas_width ctx /\ 0 <= canvas_height ctx /\
  Z.of_nat (length (surface ctx)) = 4 * canvas_width ctx * canvas_height ctx.

(** The pixel [p], a column and a row, lies on the grid. *)
Definition inGrid (width height : Z) (p : Z * Z) : Prop :=
  0 <= p.1 < width /\ 0 <= p.2 < height.

Definition inBounds (ctx : Context2D) (p : Z * Z) : Prop :=
  inGrid (canvas_width ctx) (canvas_height ctx) p.

(** The index of the first byte of the pixel [p]. *)
Definition offset (width : Z) (p : Z * Z) : Z := (p.2 * width + p.1) * 4.

(** The colour of the pixel [p] of a buffer, and of the surface. *)
Definition pixelAt (width : Z) (data : list Z) (p : Z * Z) : Sample :=
  readColor data (offset width p).

Definition pixel (ctx : Context2D) (p : Z * Z) : Sample :=
  pixelAt (canvas_width ctx) (surface ctx) p.

(** A colour as it reads once stored. *)
Definition opaque (c : RGBA) : Sample :=
  let '(r, g, b, a) := c in (Some r, Some g, Some b, Some a).

Definition clampColor (c : RGBA) : RGBA :=
  let '(r, g, b, a) := c in (JS.clamp8 r, JS.clamp8 g, JS.clamp8 b, JS.clamp8 a).

(** The pixel that holds the point [(x, y)]. *)
Definition pixelOf (x y : Q) : Z * Z := (Qfloor x, Qfloor y).

(** Up, down, left, right; no diagonal. *)
Definition adjacent4 (p q : Z * Z) : Prop :=
  (q.1 = p.1 + 1 /\ q.2 = p.2) \/ (q.1 = p.1 - 1 /\ q.2 = p.2) \/
  (q.1 = p.1 /\ q.2 = p.2 + 1) \/ (q.1 = p.1 /\ q.2 = p.2 - 1).

(** [q] is reached from [seed] by a 4-connected path of pixels of the
    surface that all have the colour [target]. *)
Inductive connected (ctx : Context2D) (target : Sample) (seed : Z * Z) :
    Z * Z -> Prop :=
| connected_seed :
    inBounds ctx seed -> pixel ctx seed = target -> connected ctx target seed seed
| connected_step p q :
    connected ctx target seed p -> adjacent4 p q ->
    inBounds ctx q -> pixel ctx q = target -> connected ctx target seed q.

(** The pixels of the grid, row by row. *)
Definition allPixels (width height : Z) : list (Z * Z) :=
  (fun i => (i mod width, i / width)) <$> seqZ 0 (width * height).

(** How many pixels of the grid have the colour [target]. *)
Definition targetCount (width height : Z) (target : Sample) (data : list Z) : nat :=
  length (filter (fun p => pixelAt width data p = target) (allPixels width height)).

(** The buffer after the pixels [filled], the latest first, were filled. *)
Definition applyFills (width : Z) (fillColor : RGBA) (filled : list (Z * Z))
    (data : list Z) : list Z :=
  foldr (fun p d => fillPixel d fillColor (offset width p)) data filled.

(** What holds of the stack and the buffer at each turn of the loop that
    started from the surface of [ctx0] with the seed pixel [seed]:
    - the buffer keeps its length;
    - a pixel has the colour it had, or it was filled and a path leads to it;
    - a path leads to every pixel of the target colour that is on the stack;
    - the neighbours, of the target colour, of a filled pixel are filled or
      on the stack, and so is the seed. *)
Definition loopInvariant (ctx0 : Context2D) (target : Sample) (fillColor : RGBA)
    (seed : Z * Z) (stack : list (Q * Q)) (data : list Z) : Prop :=
  let w := canvas_width ctx0 in
  let waiting q := exists x y, (x, y) ∈ stack /\ q = pixelOf x y in
  length data = length (surface ctx0) /\
  (forall p, inBounds ctx0 p ->
     pixelAt w data p = pixel ctx0 p \/
     (pixelAt w data p = opaque fillColor /\ connected ctx0 target seed p)) /\
  (forall q, waiting q -> inBounds ctx0 q -> pixel ctx0 q = target ->
     connected ctx0 target seed q) /\
  (forall p q, inBounds ctx0 p -> pixel ctx0 p = target ->
     pixelAt w data p = opaque fillColor ->
     adjacent4 p q -> inBounds ctx0 q -> pixel ctx0 q = target ->
     pixelAt w data q = opaque fillColor \/ waiting q) /\
  (inBounds ctx0 seed -> pixel ctx0 seed = target ->
     pixelAt w data seed = opaque fillColor \/ waiting seed).

(** Fuel that is enough for every call on a canvas of this size. *)
Definition enoughFuel (ctx : Context2D) : nat :=
  4 * Z.to_nat (canvas_width ctx * canvas_height ctx) + 2.

(** A uniform canvas. *)
Definition uniformCanvas (width height : Z) (c : RGBA) : Context2D :=
  {| canvas_width := width; canvas_height := height;
     surface := mjoin (replicate (Z.to_nat (width * height))
                         (let '(r, g, b, a) := c in [r; g; b; a])) |}.

(** A 2 by 2 canvas with one colour on a diagonal and another colour on the
    other diagonal. *)
Definition sampleCanvas : Context2D :=
  {| canvas_width := 2; canvas_height := 2;
     surface := [1; 2; 3; 4;  9; 9; 9; 9;
                 9; 9; 9; 9;  1; 2; 3; 4] |}.

(** ** The undo history *)

Record HistoryState := mkHistoryState {
  history : list string;
  currentIndex : Z
}.

(** The state [useState] starts with. *)
Definition initialHistoryState : HistoryState :=
  {| history := []; currentIndex := -1 |}.

Definition maxHistorySize : Z := 20.

(** The effect that runs once the context is set: with a context and a
    mounted canvas, whose [toDataURL()] is [imageData], the history becomes
    that one snapshot. [canvas] is [None] for a canvas that is not mounted. *)
Definition seedHistory (canvasContext : bool) (canvas : option string)
    (h : HistoryState) : HistoryState :=
  match canvasContext, canvas with
  | true, Some imageData => {| history := [imageData]; currentIndex := 0 |}
  | _, _ => h
  end.

(** The update [saveCanvasState] passes to [setHistoryState]. *)
Definition record (imageData : string) (prev : HistoryState) : HistoryState :=
  let history := JS.slice0 (history prev) (currentIndex prev + 1) in
  let history := history ++ [imageData] in
  let history :=
    if maxHistorySize <? Z.of_nat (length history) then JS.shift history
    else history in
  {| history := history; currentIndex := Z.of_nat (length history) - 1 |}.

Definition saveCanvasState (canvas : option string) (prev : HistoryState) :
    HistoryState :=
  match canvas with
  | Some imageData => record imageData prev
  | None => prev
  end.


(** [undo] on a handle that was just rendered, where the state the handle
    reads is also the state the update is applied to: the new state, and the
    argument of the call of [restoreCanvasState] when there is one. [callUndo]
    is the call on any handle. The notification [onUpdateUndoState] is not
    part of the model. *)
Definition undo (historyState : HistoryState) :
    HistoryState * option (option string) :=
  if 0 <? currentIndex historyState then
    let prev := currentIndex historyState - 1 in
    ({| history := history historyState; currentIndex := prev |},
     Some (JS.index (history historyState) prev))
  else (historyState, None).


(** [undo] [n] times, each on the state the one before has left, the
    earliest restore request first: the calls of [undoRenderTimes], with a
    render after each. [callUndoTimes] has the calls on one handle. *)
Fixpoint undoTimes (n : nat) (h : HistoryState) :
    HistoryState * list (option string) :=
  match n with
  | O => (h, [])
  | S n' =>
      let '(h1, r) := undo h in
      let '(h2, rs) := undoTimes n' h1 in
      (h2, match r with Some i => i :: rs | None => rs end)
  end.

(** The snapshots [imgs] recorded one after the other. *)
Definition recordAll (imgs : list string) (h : HistoryState) : HistoryState :=
  foldl (fun h img => record img h) h imgs.

(** Twenty-two snapshots, ["A"] to ["V"], to run the history on. *)
Definition sampleSnapshots : list string :=
  (fun n => String (ascii_of_nat (65 + n)) EmptyString) <$> seq 0 22.

(** The invariant of the history state. *)
Definition historyInvariant (h : HistoryState) : Prop :=
  (history h <> [] -> 0 <= currentIndex h < Z.of_nat (length (history h))) /\
  (currentIndex h = -1 <-> history h = []) /\
  Z.of_nat (length (history h)) <= maxHistorySize.

(** ** More of the component *)

(** *** Other texts of a colour *)

(** The short text [#RGB], one digit a channel. *)
Definition hexShort (upper : bool) (r g b : Z) : string :=
  String "#" (String (hexDigitChar upper r) (String (hexDigitChar upper g)
    (String (hexDigitChar upper b) EmptyString))).

(** The text [#RRGGBBAA], with two digits of alpha at the end. *)
Definition hexColorAlpha (upper : bool) (R G B A : Z) : string :=
  String "#" (hexByte upper R (hexByte upper G (hexByte upper B
    (hexByte upper A EmptyString)))).

(** *** The height of the stack of [floodFill] *)

(** The loop again, keeping the greatest height the stack has at the head of
    the loop, where it is highest: the four pushes of a turn are over. *)
Fixpoint floodLoopPeak (fuel : nat) (width height : Z) (targetColor : Sample)
    (fillColor : RGBA) (stack : list (Q * Q)) (data : list Z) (peak : nat) :
    option (list Z * nat) :=
  match fuel with
  | O => None
  | S fuel' =>
      let peak := Nat.max peak (length stack) in
      match stack with
      | [] => Some (data, peak)
      | (x, y) :: stack' =>
          let xi := Qfloor x in
          let yi := Qfloor y in
          let idx := (yi * width + xi) * 4 in
          if outOfBounds width height xi yi then
            floodLoopPeak fuel' width height targetColor fillColor stack' data peak
          else if fillTest data targetColor fillColor idx then
            floodLoopPeak fuel' width height targetColor fillColor
              (pushNeighbors xi yi stack') (fillPixel data fillColor idx) peak
          else
            floodLoopPeak fuel' width height targetColor fillColor stack' data peak
      end
  end.

(** [floodFill] with the greatest height of its stack; there is no stack
    when the seed already has the fill colour. *)
Definition floodFillPeak (fuel : nat) (ctx : Context2D) (startX startY : Q)
    (fillHex : string) : option (Context2D * nat) :=
  let width := canvas_width ctx in
  let height := canvas_height ctx in
  let data := getImageData ctx in
  let targetIdx := (Qfloor startY * width + Qfloor startX) * 4 in
  let targetColor := readColor data targetIdx in
  let fillColor := hexToRgba fillHex in
  if sameColor targetColor fillColor then Some (ctx, 0%nat)
  else
    match floodLoopPeak fuel width height targetColor fillColor
            [(startX, startY)] data 0 with
    | Some (data', peak) => Some (putImageData ctx data', peak)
    | None => None
    end.

(** The values a [Uint8ClampedArray] holds. *)
Definition isByte (v : Z) : Prop := 0 <= v <= 255.

(** *** The pointer handlers *)

(** The state the pointer handlers read and set: whether the 2D context is
    there, the drawing flag, the first point of a shape and the history. What
    the handlers paint on the canvas is not part of this state; the handlers
    that save the canvas take, as [imageData], what [toDataURL()] gives at
    that time. The functions on this state are the state updates of the
    handlers, those they make when each of their canvas calls returns;
    [startDrawingJS], [drawJS] and [stopDrawingJS] are the handlers with the
    canvas calls that may throw or not return. *)
Record Component := mkComponent {
  canvasContext : bool;
  isDrawing : bool;
  startPoint : option (Q * Q);
  historyState : HistoryState
}.

(** The state updates of [startDrawing], for an event at the canvas point
    [(x, y)], with the tool [currentTool] selected, when [floodFill] and
    [getImageData] return. *)
Definition startDrawing (currentTool : string) (x y : Q) (imageData : string)
    (c : Component) : Component :=
  if negb (canvasContext c) then c
  else if String.eqb currentTool "fill" then
    {| canvasContext := canvasContext c; isDrawing := isDrawing c;
       startPoint := startPoint c;
       historyState := saveCanvasState (Some imageData) (historyState c) |}
  else if String.eqb currentTool "brush" then
    {| canvasContext := canvasContext c; isDrawing := true;
       startPoint := startPoint c; historyState := historyState c |}
  else
    {| canvasContext := canvasContext c; isDrawing := true;
       startPoint := Some (x, y); historyState := historyState c |}.

(** The state updates of [stopDrawing] when [getImageData] returns; [event]
    tells whether the optional event was passed. *)
Definition stopDrawing (currentTool : string) (event : bool) (imageData : string)
    (c : Component) : Component :=
  if negb (canvasContext c) then c
  else if negb (isDrawing c) then c
  else
    let startPoint' :=
      if String.eqb currentTool "brush" then startPoint c
      else
        match startPoint c with
        | Some _ => if event then None else startPoint c
        | None => None
        end in
    {| canvasContext := canvasContext c; isDrawing := false;
       startPoint := startPoint';
       historyState := saveCanvasState (Some imageData) (historyState c) |}.

(** The events the canvas element listens to. *)
Inductive PointerEvent :=
| MouseDown (x y : Q)
| MouseMove (x y : Q)
| MouseUp (x y : Q)
| MouseLeave (x y : Q).

(** An event as the component gets it: with the tool that is selected then
    and with what the canvas encodes to if the handler saves it. *)
Record Input := mkInput {
  input_event : PointerEvent;
  input_tool : string;
  input_canvas : string
}.

(** The handler of each event: [onMouseDown] is [startDrawing], [onMouseUp]
    and [onMouseLeave] are [stopDrawing], and [draw], for [onMouseMove],
    paints and sets no state. *)
Definition handle (i : Input) (c : Component) : Component :=
  match input_event i with
  | MouseDown x y => startDrawing (input_tool i) x y (input_canvas i) c
  | MouseMove _ _ => c
  | MouseUp _ _ => stopDrawing (input_tool i) true (input_canvas i) c
  | MouseLeave _ _ => stopDrawing (input_tool i) true (input_canvas i) c
  end.

(** The events of a list handled one after the other. *)
Definition handleAll (inputs : list Input) (c : Component) : Component :=
  foldl (fun c i => handle i c) c inputs.

(** A component that is ready, on its fourth snapshot, and a click, a drag
    and a release to run it on. *)
Definition sampleComponent : Component :=
  {| canvasContext := true; isDrawing := false; startPoint := None;
     historyState := mkHistoryState ["a"; "b"; "c"; "d"]%string 3 |}.

Definition sampleGesture (tool : string) : list Input :=
  [mkInput (MouseDown 1 1) tool "down"; mkInput (MouseMove 2 2) tool "move";
   mkInput (MouseMove 3 2) tool "move"; mkInput (MouseUp 3 3) tool "up";
   mkInput (MouseLeave 9 9) tool "leave"].

(** ** Numbers that are not finite, and calls that do not return *)

(** A number as a pointer coordinate can be: [getMouseCoordinates] divides by
    the width and the height of the bounding rectangle, so that it may yield
    [NaN] or an infinity. *)
Inductive Number :=
| NaN
| Infinity (negative : bool)
| Real (q : Q).

(** A number with no fractional part, as [Math.floor] returns. *)
Inductive Integral :=
| INaN
| IInfinity (negative : bool)
| IInt (z : Z).

Module Num.

(** [Math.floor(n)]. *)
Definition floor (n : Number) : Integral :=
  match n with
  | NaN => INaN
  | Infinity s => IInfinity s
  | Real q => IInt (Qfloor q)
  end.

(** An integral number on the stack. *)
Definition ofIntegral (i : Integral) : Number :=
  match i with
  | INaN => NaN
  | IInfinity s => Infinity s
  | IInt z => Real (inject_Z z)
  end.

(** [a + b]. *)
Definition add (a b : Integral) : Integral :=
  match a, b with
  | INaN, _ => INaN
  | _, INaN => INaN
  | IInfinity s, IInfinity s' => if Bool.eqb s s' then IInfinity s else INaN
  | IInfinity s, IInt _ => IInfinity s
  | IInt _, IInfinity s => IInfinity s
  | IInt x, IInt y => IInt (x + y)
  end.

(** [a * k], [a + k] and [a - k] for an integer [k]. *)
Definition mulZ (a : Integral) (k : Z) : Integral :=
  match a with
  | INaN => INaN
  | IInfinity s => if k =? 0 then INaN else IInfinity (xorb s (k <? 0))
  | IInt z => IInt (z * k)
  end.

Definition addZ (a : Integral) (k : Z) : Integral := add a (IInt k).

Definition subZ (a : Integral) (k : Z) : Integral := add a (IInt (- k)).

(** [a < k] and [a >= k] for an integer [k]: both false on [NaN]. *)
Definition ltZ (a : Integral) (k : Z) : bool :=
  match a with
  | INaN => false
  | IInfinity s => s
  | IInt z => z <? k
  end.

Definition geZ (a : Integral) (k : Z) : bool :=
  match a with
  | INaN => false
  | IInfinity s => negb s
  | IInt z => k <=? z
  end.

(** [a[i]] and [a[i] = v] on a typed array: an index that is no integer
    reads [undefined] and stores nothing. *)
Definition index {A : Type} (a : list A) (i : Integral) : option A :=
  match i with
  | IInt z => JS.index a z
  | _ => None
  end.

Definition store (a : list Z) (i : Integral) (v : Z) : list Z :=
  match i with
  | IInt z => JS.store a z v
  | _ => a
  end.

End Num.

(** How a call ends: it returns, an exception leaves it, or the fuel of the
    model runs out before either. [Threw a] carries the state the exception
    leaves behind. *)
Inductive Result (A : Type) :=
| Returned (a : A)
| Threw (a : A)
| OutOfFuel.

Arguments Returned {A} a.
Arguments Threw {A} a.
Arguments OutOfFuel {A}.

(** ** [floodFill] on every number and every canvas *)

(** [colorsMatch], the test of the fill, the fill and the bounds test at
    an index and at coordinates that need not be integers. *)
Definition colorsMatchAt (a b : list Z) (idx : Integral) : bool :=
  JS.strictEq (Num.index a idx) (JS.index b 0) &&
  JS.strictEq (Num.index a (Num.addZ idx 1)) (JS.index b 1) &&
  JS.strictEq (Num.index a (Num.addZ idx 2)) (JS.index b 2) &&
  JS.strictEq (Num.index a (Num.addZ idx 3)) (JS.index b 3).

Definition readColorAt (data : list Z) (idx : Integral) : Sample :=
  (Num.index data idx, Num.index data (Num.addZ idx 1),
   Num.index data (Num.addZ idx 2), Num.index data (Num.addZ idx 3)).

Definition outOfBoundsAt (width height : Z) (xi yi : Integral) : bool :=
  Num.ltZ xi 0 || Num.geZ xi width || Num.ltZ yi 0 || Num.geZ yi height.

Definition fillTestAt (data : list Z) (targetColor : Sample) (fillColor : RGBA)
    (idx : Integral) : bool :=
  let '(t0, t1, t2, t3) := targetColor in
  negb (colorsMatchAt data (clampedArray fillColor) idx) &&
  JS.strictEq (Num.index data idx) t0 &&
  JS.strictEq (Num.index data (Num.addZ idx 1)) t1 &&
  JS.strictEq (Num.index data (Num.addZ idx 2)) t2 &&
  JS.strictEq (Num.index data (Num.addZ idx 3)) t3.

Definition fillPixelAt (data : list Z) (fillColor : RGBA) (idx : Integral) : list Z :=
  let '(f0, f1, f2, f3) := fillColor in
  let data := Num.store data idx f0 in
  let data := Num.store data (Num.addZ idx 1) f1 in
  let data := Num.store data (Num.addZ idx 2) f2 in
  Num.store data (Num.addZ idx 3) f3.

Definition pushNeighborsAt (xi yi : Integral) (stack : list (Number * Number)) :
    list (Number * Number) :=
  (Num.ofIntegral xi, Num.ofIntegral (Num.subZ yi 1)) ::
  (Num.ofIntegral xi, Num.ofIntegral (Num.addZ yi 1)) ::
  (Num.ofIntegral (Num.subZ xi 1), Num.ofIntegral yi) ::
  (Num.ofIntegral (Num.addZ xi 1), Num.ofIntegral yi) :: stack.

(** The loop of [floodFill] on a stack of numbers; with the buffer it gives
    the greatest height the stack had at the head of the loop. *)
Fixpoint floodLoopJS (fuel : nat) (width height : Z) (targetColor : Sample)
    (fillColor : RGBA) (stack : list (Number * Number)) (data : list Z)
    (peak : nat) : option (list Z * nat) :=
  match fuel with
  | O => None
  | S fuel' =>
      let peak := Nat.max peak (length stack) in
      match stack with
      | [] => Some (data, peak)
      | (x, y) :: stack' =>
          let xi := Num.floor x in
          let yi := Num.floor y in
          let idx := Num.mulZ (Num.add (Num.mulZ yi width) xi) 4 in
          if outOfBoundsAt width height xi yi then
            floodLoopJS fuel' width height targetColor fillColor stack' data peak
          else if fillTestAt data targetColor fillColor idx then
            floodLoopJS fuel' width height targetColor fillColor
              (pushNeighborsAt xi yi stack') (fillPixelAt data fillColor idx) peak
          else
            floodLoopJS fuel' width height targetColor fillColor stack' data peak
      end
  end.

(** [ctx.getImageData(0, 0, width, height).data], which throws an
    [IndexSizeError], here [None], when the width or the height is 0. *)
Definition getImageDataJS (ctx : Context2D) : option (list Z) :=
  if (canvas_width ctx =? 0) || (canvas_height ctx =? 0) then None
  else Some (surface ctx).

(** [floodFill] for every seed and every canvas: the canvas after the call,
    with the greatest height of the stack. When [getImageData] throws, the
    canvas is as it was. *)
Definition floodFillJS (fuel : nat) (ctx : Context2D) (startX startY : Number)
    (fillHex : string) : Result (Context2D * nat) :=
  let width := canvas_width ctx in
  let height := canvas_height ctx in
  match getImageDataJS ctx with
  | None => Threw (ctx, 0%nat)
  | Some data =>
      let targetIdx :=
        Num.mulZ (Num.add (Num.mulZ (Num.floor startY) width) (Num.floor startX)) 4 in
      let targetColor := readColorAt data targetIdx in
      let fillColor := hexToRgba fillHex in
      if sameColor targetColor fillColor then Returned (ctx, 0%nat)
      else
        match floodLoopJS fuel width height targetColor fillColor
                [(startX, startY)] data 0 with
        | Some (data', peak) => Returned (putImageData ctx data', peak)
        | None => OutOfFuel
        end
  end.

(** The seed passes the bounds test of the loop with a coordinate that is
    [NaN]: the pixel it names is none. *)
Definition isNaN (i : Integral) : bool :=
  match i with INaN => true | _ => false end.

Definition passesAsNaN (width height : Z) (x y : Number) : bool :=
  negb (outOfBoundsAt width height (Num.floor x) (Num.floor y)) &&
  (isNaN (Num.floor x) || isNaN (Num.floor y)).

(** A finite point as a pair of numbers. *)
Definition real (p : Q * Q) : Number * Number := (Real p.1, Real p.2).

(** ** The handle and the state it was rendered with *)

(** The handle of [useImperativeHandle] is built again at each render, from
    the [historyState] of that render; an update that was queued since is in
    [latest] and not in [rendered]. *)
Record Handle := mkHandle {
  rendered : HistoryState;
  latest : HistoryState
}.

(** The handle after a render. *)
Definition freshHandle (h : HistoryState) : Handle :=
  {| rendered := h; latest := h |}.

Definition render (hd : Handle) : Handle := freshHandle (latest hd).

(** A call of [undo] on the handle: the test, [prev] and the argument of
    [restoreCanvasState] are taken from the rendered state; the update
    [(h) => ({ ...h, currentIndex: prev })] is applied to the latest. *)
Definition callUndo (hd : Handle) : Handle * option (option string) :=
  if 0 <? currentIndex (rendered hd) then
    let prev := currentIndex (rendered hd) - 1 in
    ({| rendered := rendered hd;
        latest := {| history := history (latest hd); currentIndex := prev |} |},
     Some (JS.index (history (rendered hd)) prev))
  else (hd, None).

(** A call of [canUndo] on the handle. *)
Definition callCanUndo (hd : Handle) : bool := 0 <? currentIndex (rendered hd).

(** A call of [saveCanvasState]: its update reads the state it is
    applied to, the latest. *)
Definition callSave (imageData : string) (hd : Handle) : Handle :=
  {| rendered := rendered hd; latest := record imageData (latest hd) |}.

Definition callSaveAll (imgs : list string) (hd : Handle) : Handle :=
  foldl (fun hd img => callSave img hd) hd imgs.

(** The same saves with a render after each. *)
Definition saveRenderAll (imgs : list string) (hd : Handle) : Handle :=
  foldl (fun hd img => render (callSave img hd)) hd imgs.

(** [n] calls of [undo] on one handle, with no render between them. *)
Fixpoint callUndoTimes (n : nat) (hd : Handle) : Handle * list (option string) :=
  match n with
  | O => (hd, [])
  | S n' =>
      let '(hd1, r) := callUndo hd in
      let '(hd2, rs) := callUndoTimes n' hd1 in
      (hd2, match r with Some i => i :: rs | None => rs end)
  end.

(** [n] calls of [undo], the component rendered again after each. *)
Fixpoint undoRenderTimes (n : nat) (hd : Handle) : Handle * list (option string) :=
  match n with
  | O => (hd, [])
  | S n' =>
      let '(hd1, r) := callUndo hd in
      let '(hd2, rs) := undoRenderTimes n' (render hd1) in
      (hd2, match r with Some i => i :: rs | None => rs end)
  end.

(** ** The pointer handlers with their canvas calls *)

(** The component with its canvas: the size of the canvas, which is that of
    the preview canvas too, and the state the handlers read and set. The
    context and the preview canvas are set by the same effect, so that the
    one is there when the other is. *)
Record Widget := mkWidget {
  widget_width : Z;
  widget_height : Z;
  widget_context : bool;
  widget_isDrawing : bool;
  widget_startPoint : option (Number * Number);
  widget_history : HistoryState
}.

(** An event with all the handlers read: the point [getMouseCoordinates]
    gives, the tool and the colour selected, the bytes [getImageData] reads
    from the canvas at that time and what [toDataURL()] gives when the
    handler saves the canvas. *)
Inductive PointerKind := Down | Move | Up | Leave.

Record PointerInput := mkPointerInput {
  pointer_kind : PointerKind;
  pointer_x : Number;
  pointer_y : Number;
  pointer_tool : string;
  pointer_color : string;
  pointer_pixels : list Z;
  pointer_canvas : string
}.

Definition withHistory (w : Widget) (h : HistoryState) : Widget :=
  {| widget_width := widget_width w; widget_height := widget_height w;
     widget_context := widget_context w; widget_isDrawing := widget_isDrawing w;
     widget_startPoint := widget_startPoint w; widget_history := h |}.

Definition withDrawing (w : Widget) (d : bool) (p : option (Number * Number)) : Widget :=
  {| widget_width := widget_width w; widget_height := widget_height w;
     widget_context := widget_context w; widget_isDrawing := d;
     widget_startPoint := p; widget_history := widget_history w |}.

(** The canvas of the widget with the bytes that are on it. *)
Definition widgetCanvas (w : Widget) (pixels : list Z) : Context2D :=
  {| canvas_width := widget_width w; canvas_height := widget_height w;
     surface := pixels |}.

(** The reads of the whole canvas, or of the preview canvas, in the handlers
    of the shape tools throw on a canvas of width or height 0. *)
Definition readThrows (w : Widget) : bool :=
  (widget_width w =? 0) || (widget_height w =? 0).

(** [startDrawing]. The state updates that were queued before an exception
    are applied all the same. *)
Definition startDrawingJS (fuel : nat) (i : PointerInput) (w : Widget) : Result Widget :=
  if negb (widget_context w) then Returned w
  else if String.eqb (pointer_tool i) "fill" then
    match floodFillJS fuel (widgetCanvas w (pointer_pixels i))
            (pointer_x i) (pointer_y i) (pointer_color i) with
    | Returned _ =>
        Returned (withHistory w
                    (saveCanvasState (Some (pointer_canvas i)) (widget_history w)))
    | Threw _ => Threw w
    | OutOfFuel => OutOfFuel
    end
  else if String.eqb (pointer_tool i) "brush" then
    Returned (withDrawing w true (widget_startPoint w))
  else
    let w' := withDrawing w true (Some (pointer_x i, pointer_y i)) in
    if readThrows w then Threw w' else Returned w'.

(** [draw]: it paints and sets no state; with a shape tool it reads the
    preview canvas first. *)
Definition drawJS (i : PointerInput) (w : Widget) : Result Widget :=
  if negb (widget_isDrawing w) || negb (widget_context w) then Returned w
  else if String.eqb (pointer_tool i) "brush" then Returned w
  else
    match widget_startPoint w with
    | Some _ => if readThrows w then Threw w else Returned w
    | None => Returned w
    end.

(** [stopDrawing]; [event] tells whether the optional event was passed. *)
Definition stopDrawingJS (event : bool) (i : PointerInput) (w : Widget) : Result Widget :=
  if negb (widget_context w) then Returned w
  else if negb (widget_isDrawing w) then Returned w
  else
    let saved p :=
      withHistory (withDrawing w false p)
        (saveCanvasState (Some (pointer_canvas i)) (widget_history w)) in
    if String.eqb (pointer_tool i) "brush" then Returned (saved (widget_startPoint w))
    else
      match widget_startPoint w with
      | Some _ =>
          if event then
            if readThrows w then Threw w else Returned (saved None)
          else Returned (saved (widget_startPoint w))
      | None => Returned (saved None)
      end.

Definition handleJS (fuel : nat) (i : PointerInput) (w : Widget) : Result Widget :=
  match pointer_kind i with
  | Down => startDrawingJS fuel i w
  | Move => drawJS i w
  | Up => stopDrawingJS true i w
  | Leave => stopDrawingJS true i w
  end.

(** The events of a list handled one after the other: an exception ends the
    handler of one event and the next event finds the state it left; [None]
    when a handler did not return within the fuel. *)
Fixpoint handleAllJS (fuel : nat) (inputs : list PointerInput) (w : Widget) :
    option Widget :=
  match inputs with
  | [] => Some w
  | i :: inputs' =>
      match handleJS fuel i w with
      | Returned w' => handleAllJS fuel inputs' w'
      | Threw w' => handleAllJS fuel inputs' w'
      | OutOfFuel => None
      end
  end.

(** A widget that is ready, on its fourth snapshot, with a 2 by 2 canvas,
    and the same widget with an empty canvas. *)
Definition sampleWidget : Widget :=
  {| widget_width := 2; widget_height := 2; widget_context := true;
     widget_isDrawing := false; widget_startPoint := None;
     widget_history := mkHistoryState ["a"; "b"; "c"; "d"]%string 3 |}.

Definition emptyWidget : Widget :=
  {| widget_width := 0; widget_height := 0; widget_context := true;
     widget_isDrawing := false; widget_startPoint := None;
     widget_history := mkHistoryState ["a"; "b"; "c"; "d"]%string 3 |}.

Definition samplePointer (kind : PointerKind) (tool canvas : string) : PointerInput :=
  {| pointer_kind := kind; pointer_x := Real (1 # 2); pointer_y := Real (1 # 2);
     pointer_tool := tool; pointer_color := "#FF0000";
     pointer_pixels := surface sampleCanvas; pointer_canvas := canvas |}.

(** * Properties *)

(** Linear arithmetic with division and remainder by a constant. *)
Ltac zlia := Z.div_mod_to_equations; lia.

(** ** Colour parsing *)

Example hexToRgba_red : hexToRgba "#FF0000" = (255, 0, 0, 255).
Proof. reflexivity. Qed.

Example hexToRgba_lower : hexToRgba "#1a2b3c" = (26, 43, 60, 255).
Proof. reflexivity. Qed.

Example hexToRgba_no_digit : hexToRgba "red" = (0, 0, 0, 255).
Proof. reflexivity. Qed.

Example hexColor_sample : hexColor true 255 0 171 = "#FF00AB"%string.
Proof. reflexivity. Qed.

Section HexToRgba.

Ltac each_ascii c :=
  destruct c as [[] [] [] [] [] [] [] []].

Lemma trimStart_digit c d s :
  JS.hexDigitValue c = Some d -> JS.trimStart (String c s) = String c s.
Proof.
  intros Hd. cbn [JS.trimStart].
  replace (JS.isWhiteSpace c) with false; [reflexivity|].
  revert Hd. each_ascii c; vm_compute; congruence.
Qed.

Lemma stripSign_digit c d s :
  JS.hexDigitValue c = Some d -> JS.stripSign (String c s) = (1, String c s).
Proof.
  each_ascii c; try reflexivity; vm_compute; congruence.
Qed.

Lemma stripHexPrefix_digits c1 c2 d s :
  JS.hexDigitValue c2 = Some d ->
  JS.stripHexPrefix (String c1 (String c2 s)) = String c1 (String c2 s).
Proof.
  each_ascii c1; try reflexivity.
  each_ascii c2; try reflexivity; vm_compute; congruence.
Qed.

Lemma hexDigitValue_char upper n :
  0 <= n < 16 -> JS.hexDigitValue (hexDigitChar upper n) = Some n.
Proof.
  intros Hn.
  assert (Hc : Z.to_nat n ∈ seq 0 16) by (apply elem_of_seq; lia).
  rewrite <- (Z2Nat.id n) by lia.
  revert Hc. generalize (Z.to_nat n). clear. intros k Hk.
  repeat (apply elem_of_cons in Hk as [->|Hk]; [by destruct upper|]).
  by apply elem_of_nil in Hk.
Qed.

Lemma parseDigits_hexByte upper v rest seen acc :
  0 <= v <= 255 ->
  JS.parseDigits (hexByte upper v rest) seen acc =
  JS.parseDigits rest true (acc * 256 + v).
Proof.
  intros Hv. unfold hexByte. cbn [JS.parseDigits].
  rewrite !hexDigitValue_char by zlia.
  f_equal. zlia.
Qed.

Lemma toNumber_small v : Z.abs v < 2 ^ 53 -> JS.toNumber v = Some v.
Proof.
  intros Hv. unfold JS.toNumber.
  destruct (Z.ltb_spec (Z.abs v) (2 ^ 53)); [reflexivity | lia].
Qed.

Lemma toInt32_small v : -2147483648 <= v < 2147483648 -> JS.toInt32 v = v.
Proof.
  unfold JS.toInt32.
  change (2 ^ 31) with 2147483648. change (2 ^ 32) with 4294967296.
  intros Hv. destruct (Z.leb_spec 2147483648 (v mod 4294967296)); zlia.
Qed.

Lemma band_255 n : JS.band n 255 = JS.int32_of n mod 256.
Proof.
  unfold JS.band. change (JS.toInt32 255) with (Z.ones 8).
  by rewrite Z.land_ones.
Qed.

Lemma band_255_range n : 0 <= JS.band n 255 <= 255.
Proof. rewrite band_255. zlia. Qed.

(** Every channel [hexToRgba] returns is a byte, and alpha is 255, for
    every string. *)
Lemma hexToRgba_range hex :
  exists r g b, hexToRgba hex = (r, g, b, 255) /\
    0 <= r <= 255 /\ 0 <= g <= 255 /\ 0 <= b <= 255.
Proof.
  unfold hexToRgba. do 3 eexists. split; [reflexivity|].
  auto using band_255_range.
Qed.

Lemma parseInt16_hexColor upper R G B :
  0 <= R <= 255 -> 0 <= G <= 255 -> 0 <= B <= 255 ->
  JS.parseInt16 (JS.removeFirst "#" (hexColor upper R G B)) =
  Some (R * 65536 + G * 256 + B).
Proof.
  intros HR HG HB. unfold hexColor.
  change (JS.removeFirst "#" (String "#" ?s)) with s.
  unfold JS.parseInt16.
  assert (H1 := hexDigitValue_char upper (R / 16) ltac:(zlia)).
  assert (H2 := hexDigitValue_char upper (R mod 16) ltac:(zlia)).
  unfold hexByte at 1.
  erewrite trimStart_digit, stripSign_digit, stripHexPrefix_digits by eassumption.
  fold (hexByte upper R (hexByte upper G (hexByte upper B EmptyString))).
  rewrite !parseDigits_hexByte by lia. cbn [JS.parseDigits].
  rewrite toNumber_small by lia. f_equal. lia.
Qed.

End HexToRgba.

(** C10. For channel values R, G and B between 0 and 255, [hexToRgba] maps
    the text [#RRGGBB], in upper- or lower-case digits, to exactly
    (R, G, B, 255); the four channels are then bytes. *)
Theorem hexToRgba_hexColor (upper : bool) (R G B : Z) :
  0 <= R <= 255 -> 0 <= G <= 255 -> 0 <= B <= 255 ->
  hexToRgba (hexColor upper R G B) = (R, G, B, 255).
Proof.
  intros HR HG HB. unfold hexToRgba.
  rewrite parseInt16_hexColor by assumption.
  rewrite !band_255. cbn [JS.sar JS.int32_of].
  rewrite !(toInt32_small (R * 65536 + G * 256 + B)) by lia.
  rewrite !Z.shiftr_div_pow2 by lia.
  change (2 ^ 16) with 65536. change (2 ^ 8) with 256.
  rewrite !toInt32_small by zlia.
  repeat f_equal; zlia.
Qed.

Lemma hexToRgba_hexColor_witness :
  hexToRgba (hexColor false 26 43 60) = (26, 43, 60, 255).
Proof. apply hexToRgba_hexColor; lia. Defined.

(** ** The undo history *)

Section History.

Implicit Types (h : HistoryState) (img : string) (l : list string).

Lemma slice0_take {A : Type} (a : list A) (c : Z) :
  -1 <= c -> JS.slice0 a (c + 1) = take (Z.to_nat (c + 1)) a.
Proof.
  intros Hc. unfold JS.slice0.
  destruct (Z.ltb_spec (c + 1) 0); [lia|].
  destruct (Z.min_spec (c + 1) (Z.of_nat (length a))) as [[? ->]|[? ->]];
    [reflexivity|].
  rewrite !take_ge by lia. reflexivity.
Qed.

(** A negative cursor other than -1 makes [slice] count from the end. *)
Example slice0_negative : JS.slice0 ["a"; "b"; "c"]%string (-1) = ["a"; "b"]%string.
Proof. reflexivity. Qed.

Lemma lookup_take_upto {A : Type} (a : list A) (c : Z) (i : nat) :
  -1 <= c ->
  take (Z.to_nat (c + 1)) a !! i =
  if Z.of_nat i <=? c then a !! i else None.
Proof.
  intros Hc. destruct (Z.leb_spec (Z.of_nat i) c).
  - apply lookup_take_lt. lia.
  - apply lookup_take_ge. lia.
Qed.

Lemma record_unfold img h :
  -1 <= currentIndex h ->
  let appended := take (Z.to_nat (currentIndex h + 1)) (history h) ++ [img] in
  record img h =
  if maxHistorySize <? Z.of_nat (length appended)
  then {| history := drop 1 appended;
          currentIndex := Z.of_nat (length appended) - 1 - 1 |}
  else {| history := appended; currentIndex := Z.of_nat (length appended) - 1 |}.
Proof.
  intros Hc appended. unfold record. rewrite slice0_take by assumption.
  fold appended. destruct (maxHistorySize <? Z.of_nat (length appended)) eqn:E;
    [|reflexivity].
  unfold JS.shift. f_equal. rewrite length_drop.
  apply Z.ltb_lt in E. unfold maxHistorySize in E. lia.
Qed.

(** The state after [record] when the cursor is on the last entry: the
    entries that are kept are the last [maxHistorySize] of all. *)
Lemma record_at_end img l :
  l <> [] -> Z.of_nat (length l) <= maxHistorySize ->
  record img {| history := l; currentIndex := Z.of_nat (length l) - 1 |} =
  {| history := drop (length (l ++ [img]) - 20) (l ++ [img]);
     currentIndex := Z.of_nat (length (drop (length (l ++ [img]) - 20) (l ++ [img]))) - 1 |}.
Proof.
  intros Hne Hlen. unfold maxHistorySize in Hlen.
  assert (0 < length l)%nat by (destruct l; [done | simpl; lia]).
  rewrite record_unfold by (simpl; lia). cbn [history currentIndex].
  replace (Z.to_nat (Z.of_nat (length l) - 1 + 1)) with (length l) by lia.
  rewrite take_ge by lia. rewrite length_app. cbn [length].
  unfold maxHistorySize.
  destruct (Z.ltb_spec 20 (Z.of_nat (length l + 1))).
  - replace (length l + 1 - 20)%nat with 1%nat by lia.
    rewrite length_drop, length_app. cbn [length]. f_equal. lia.
  - replace (length l + 1 - 20)%nat with 0%nat by lia.
    rewrite drop_0, length_app. cbn [length]. reflexivity.
Qed.

Lemma recordAll_snoc imgs img h :
  recordAll (imgs ++ [img]) h = record img (recordAll imgs h).
Proof. unfold recordAll. by rewrite foldl_app. Qed.

Lemma drop_last_snoc {A : Type} (a : list A) (x : A) (n : nat) :
  let b := drop (length a - n) a in
  (0 < n)%nat ->
  drop (length (b ++ [x]) - n) (b ++ [x]) =
  drop (length (a ++ [x]) - n) (a ++ [x]).
Proof.
  intros b Hn. subst b. rewrite !length_app, length_drop. cbn [length].
  rewrite !drop_app, !length_drop, drop_drop.
  destruct (decide (length a < n)%nat).
  - replace (length a - n)%nat with 0%nat by lia.
    rewrite !Nat.sub_0_r, Nat.add_0_l. reflexivity.
  - f_equal; [f_equal; lia|].
    f_equal; lia.
Qed.

(** Recording [imgs] from a state whose cursor is on the last entry. *)
Lemma recordAll_at_end imgs l :
  l <> [] -> Z.of_nat (length l) <= maxHistorySize ->
  let kept := drop (length (l ++ imgs) - 20) (l ++ imgs) in
  recordAll imgs {| history := l; currentIndex := Z.of_nat (length l) - 1 |} =
  {| history := kept; currentIndex := Z.of_nat (length kept) - 1 |}.
Proof.
  intros Hne Hlen. induction imgs as [|img imgs IH] using rev_ind.
  - cbn zeta. rewrite app_nil_r. unfold maxHistorySize in Hlen.
    replace (length l - 20)%nat with 0%nat by lia. reflexivity.
  - cbn zeta in *. rewrite recordAll_snoc, IH.
    set (kept := drop (length (l ++ imgs) - 20) (l ++ imgs)).
    assert (Hk : (length kept = length (l ++ imgs) `min` 20)%nat).
    { unfold kept. rewrite length_drop. lia. }
    assert (0 < length l)%nat by (destruct l; [done | simpl; lia]).
    rewrite length_app in Hk.
    rewrite record_at_end.
    + unfold kept. rewrite (drop_last_snoc (l ++ imgs) img 20) by lia.
      by rewrite <- !app_assoc.
    + intros E. rewrite E in Hk. simpl in Hk. lia.
    + unfold maxHistorySize. lia.
Qed.

Lemma drop_1_tail {A : Type} (a : list A) : drop 1 a = tail a.
Proof. by destruct a. Qed.

Lemma undo_at_zero h : currentIndex h <= 0 -> undo h = (h, None).
Proof.
  intros Hc. unfold undo. destruct (Z.ltb_spec 0 (currentIndex h)); [lia | done].
Qed.

Lemma undoTimes_at_zero n h :
  currentIndex h <= 0 -> undoTimes n h = (h, []).
Proof.
  intros Hc. induction n as [|n IH]; [done|].
  cbn [undoTimes]. by rewrite undo_at_zero, IH.
Qed.

End History.

(** C2. For a history state whose cursor is at least -1, [record] keeps
    exactly the entries at indexes up to the cursor, appends the new
    snapshot and puts the cursor on the last index; when that makes more than
    20 entries, the first entry alone is dropped and the cursor is one less.
    The cursor addresses the new snapshot in both cases. *)
Theorem record_truncates_appends_evicts (img : string) (h : HistoryState) :
  -1 <= currentIndex h ->
  exists kept : list string,
    (forall i : nat,
        kept !! i = if Z.of_nat i <=? currentIndex h then history h !! i else None) /\
    (Z.of_nat (length (kept ++ [img])) <= 20 ->
       record img h =
       {| history := kept ++ [img];
          currentIndex := Z.of_nat (length (kept ++ [img])) - 1 |}) /\
    (20 < Z.of_nat (length (kept ++ [img])) ->
       record img h =
       {| history := tail (kept ++ [img]);
          currentIndex := Z.of_nat (length (kept ++ [img])) - 1 - 1 |}) /\
    0 <= currentIndex (record img h) /\
    history (record img h) !! Z.to_nat (currentIndex (record img h)) = Some img.
Proof.
  intros Hc. exists (take (Z.to_nat (currentIndex h + 1)) (history h)).
  set (kept := take _ _).
  assert (Hrec := record_unfold img h Hc). cbn zeta in Hrec. fold kept in Hrec.
  split; [intros i; by apply lookup_take_upto|].
  unfold maxHistorySize in Hrec.
  destruct (Z.ltb_spec 20 (Z.of_nat (length (kept ++ [img])))) as [Hgt|Hle].
  - split; [lia|]. split; [intros _; by rewrite Hrec, drop_1_tail|].
    rewrite Hrec. cbn [history currentIndex].
    rewrite length_app in *. cbn [length] in *.
    split; [lia|]. rewrite lookup_drop.
    replace (1 + Z.to_nat (Z.of_nat (length kept + 1) - 1 - 1))%nat
      with (length kept) by lia.
    apply list_lookup_middle. reflexivity.
  - split; [done|]. split; [lia|].
    rewrite Hrec. cbn [history currentIndex].
    rewrite length_app. cbn [length].
    split; [lia|]. apply list_lookup_middle. lia.
Qed.

Lemma record_truncates_appends_evicts_witness :
  exists kept : list string,
    (forall i : nat,
        kept !! i = if Z.of_nat i <=? 0 then ["a"; "b"; "c"]%string !! i else None) /\
    (Z.of_nat (length (kept ++ ["d"%string])) <= 20 ->
       record "d" (mkHistoryState ["a"; "b"; "c"]%string 0) =
       {| history := kept ++ ["d"%string];
          currentIndex := Z.of_nat (length (kept ++ ["d"%string])) - 1 |}) /\
    (20 < Z.of_nat (length (kept ++ ["d"%string])) ->
       record "d" (mkHistoryState ["a"; "b"; "c"]%string 0) =
       {| history := tail (kept ++ ["d"%string]);
          currentIndex := Z.of_nat (length (kept ++ ["d"%string])) - 1 - 1 |}) /\
    0 <= currentIndex (record "d" (mkHistoryState ["a"; "b"; "c"]%string 0)) /\
    history (record "d" (mkHistoryState ["a"; "b"; "c"]%string 0))
      !! Z.to_nat (currentIndex (record "d" (mkHistoryState ["a"; "b"; "c"]%string 0)))
    = Some "d"%string.
Proof.
  apply (record_truncates_appends_evicts "d" (mkHistoryState ["a"; "b"; "c"]%string 0)).
  simpl. lia.
Defined.

Example record_after_undo :
  record "d" (undo (mkHistoryState ["a"; "b"; "c"]%string 2)).1 =
  mkHistoryState ["a"; "b"; "d"]%string 2.
Proof. reflexivity. Qed.


Example undo_sample :
  undo (mkHistoryState ["a"; "b"; "c"]%string 2) =
  (mkHistoryState ["a"; "b"; "c"]%string 1, Some (Some "b"%string)).
Proof. reflexivity. Qed.

Example undo_at_baseline :
  undo (mkHistoryState ["a"; "b"; "c"]%string 0) =
  (mkHistoryState ["a"; "b"; "c"]%string 0, None).
Proof. reflexivity. Qed.

(** The history state on its own, each [undo] on the state the one before
    has left: more than 20 snapshots recorded after the seeding leave exactly
    the 20 latest of them, the cursor on the last index; 19 times [undo] then
    bring the cursor to index 0, asking in turn for the entries 18 down to 0,
    and any number more changes nothing and asks for nothing. *)
Lemma recordAll_then_undoTimes (seed : string) (imgs : list string) :
  (20 < length imgs)%nat ->
  let h := recordAll imgs (seedHistory true (Some seed) initialHistoryState) in
  history h = drop (length imgs - 20) imgs /\
  length (history h) = 20%nat /\
  currentIndex h = 19 /\
  (undoTimes 19 h).1 = {| history := history h; currentIndex := 0 |} /\
  (undoTimes 19 h).2 = Some <$> reverse (take 19 (history h)) /\
  forall n : nat, undoTimes n (undoTimes 19 h).1 = ((undoTimes 19 h).1, []).
Proof.
  intros HN h.
  assert (Hh : h = {| history := drop (length imgs - 20) imgs; currentIndex := 19 |}).
  { subst h. cbn [seedHistory].
    change 0 with (Z.of_nat (length [seed]) - 1).
    rewrite recordAll_at_end by (unfold maxHistorySize; simpl; done || lia).
    change ([seed] ++ imgs) with (seed :: imgs). cbn [length].
    replace (S (length imgs) - 20)%nat with (S (length imgs - 20)) by lia.
    cbn [drop]. f_equal. rewrite length_drop. lia. }
  assert (Hlen : length (history h) = 20%nat).
  { rewrite Hh. cbn [history]. rewrite length_drop. lia. }
  destruct h as [l c]. cbn [history currentIndex] in *.
  injection Hh as Hl Hc. split; [done|]. split; [done|]. split; [done|].
  subst c. clear Hl.
  do 20 (destruct l as [|? l]; [discriminate Hlen|]).
  destruct l; [|discriminate Hlen].
  split; [reflexivity|]. split; [reflexivity|].
  intros n. apply undoTimes_at_zero. by vm_compute.
Qed.

Example history_sample :
  recordAll sampleSnapshots (seedHistory true (Some "blank"%string) initialHistoryState) =
  {| history := ["C"; "D"; "E"; "F"; "G"; "H"; "I"; "J"; "K"; "L"; "M"; "N";
                 "O"; "P"; "Q"; "R"; "S"; "T"; "U"; "V"]%string;
     currentIndex := 19 |}.
Proof. reflexivity. Qed.




(** ** Reading and writing the pixel buffer *)

Section Buffer.

Implicit Types (data : list Z) (idx : Z) (p q : Z * Z) (c : RGBA) (t : Sample).

Lemma strictEq_true (a b : option Z) : JS.strictEq a b = true <-> a = b.
Proof.
  destruct a as [x|], b as [y|]; cbn; try (split; congruence).
  rewrite Z.eqb_eq. split; congruence.
Qed.

Lemma length_store data idx v : length (JS.store data idx v) = length data.
Proof. unfold JS.store. destruct (idx <? 0); [done | apply length_insert]. Qed.

Lemma index_store_eq data idx v :
  0 <= idx < Z.of_nat (length data) ->
  JS.index (JS.store data idx v) idx = Some (JS.clamp8 v).
Proof.
  intros H. unfold JS.index, JS.store.
  destruct (Z.ltb_spec idx 0); [lia|]. apply list_lookup_insert_eq. lia.
Qed.

Lemma index_store_ne data idx idx' v :
  idx <> idx' -> JS.index (JS.store data idx v) idx' = JS.index data idx'.
Proof.
  intros H. unfold JS.index, JS.store.
  destruct (Z.ltb_spec idx' 0); [done|].
  destruct (Z.ltb_spec idx 0); [done|].
  apply list_lookup_insert_ne. lia.
Qed.

Lemma length_fillPixel data c idx : length (fillPixel data c idx) = length data.
Proof. destruct c as [[[r g] b] a]. cbn. by rewrite !length_store. Qed.

(** The pixel that was filled reads as the fill colour, clamped. *)
Lemma readColor_fillPixel_eq data c idx :
  0 <= idx -> idx + 3 < Z.of_nat (length data) ->
  readColor (fillPixel data c idx) idx = opaque (clampColor c).
Proof.
  intros H0 H3. destruct c as [[[r g] b] a]. unfold readColor, fillPixel. cbn.
  rewrite !(index_store_ne _ (idx + 3)), !(index_store_ne _ (idx + 2)),
    !(index_store_ne _ (idx + 1)) by lia.
  rewrite !index_store_eq by (rewrite ?length_store; lia).
  reflexivity.
Qed.

(** Four bytes that do not overlap the filled pixel read as before. *)
Lemma readColor_fillPixel_ne data c idx idx' :
  idx + 3 < idx' \/ idx' + 3 < idx ->
  readColor (fillPixel data c idx) idx' = readColor data idx'.
Proof.
  intros H. destruct c as [[[r g] b] a]. unfold readColor, fillPixel.
  by rewrite !index_store_ne by lia.
Qed.

Lemma outOfBounds_false width height xi yi :
  outOfBounds width height xi yi = false <-> inGrid width height (xi, yi).
Proof.
  unfold outOfBounds, inGrid. cbn.
  rewrite !orb_false_iff, !Z.ltb_ge, !Z.leb_gt. lia.
Qed.

Lemma outOfBounds_true width height xi yi :
  outOfBounds width height xi yi = true <-> ~ inGrid width height (xi, yi).
Proof.
  rewrite <- outOfBounds_false. destruct (outOfBounds width height xi yi); split;
    congruence.
Qed.

(** The bytes of a pixel of the grid lie in the buffer. *)
Lemma offset_inGrid width height p :
  inGrid width height p ->
  0 <= offset width p /\ offset width p + 3 < 4 * width * height.
Proof. unfold inGrid, offset. intros [[] []]. nia. Qed.

(** Two pixels of the grid do not share bytes. *)
Lemma offset_apart width height p q :
  inGrid width height p -> inGrid width height q -> p <> q ->
  offset width p + 3 < offset width q \/ offset width q + 3 < offset width p.
Proof.
  unfold inGrid, offset. destruct p as [x y], q as [x' y']. cbn.
  intros [[] []] [[] []] Hne.
  destruct (Z.lt_trichotomy y y') as [?|[->|?]]; [nia| |nia].
  destruct (Z.lt_trichotomy x x') as [?|[->|?]]; [nia|done|nia].
Qed.

Lemma pixelAt_fillPixel_eq width height data c p :
  Z.of_nat (length data) = 4 * width * height -> inGrid width height p ->
  pixelAt width (fillPixel data c (offset width p)) p = opaque (clampColor c).
Proof.
  intros Hlen Hp. apply offset_inGrid in Hp as [? ?].
  apply readColor_fillPixel_eq; lia.
Qed.

Lemma pixelAt_fillPixel_ne width height data c p q :
  inGrid width height p -> inGrid width height q -> p <> q ->
  pixelAt width (fillPixel data c (offset width p)) q = pixelAt width data q.
Proof.
  intros Hp Hq Hne. apply readColor_fillPixel_ne.
  by apply (offset_apart width height).
Qed.

Lemma colorsMatch_true data c idx :
  colorsMatch data (clampedArray c) idx = true <->
  readColor data idx = opaque (clampColor c).
Proof.
  destruct c as [[[r g] b] a]. unfold colorsMatch, readColor, clampedArray. cbn.
  rewrite !andb_true_iff, !strictEq_true. split.
  - intros [[[-> ->] ->] ->]. reflexivity.
  - intros [= -> -> -> ->]. done.
Qed.

(** What the guard of the fill tests. *)
Lemma fillTest_true data t c idx :
  fillTest data t c idx = true <->
  readColor data idx = t /\ t <> opaque (clampColor c).
Proof.
  destruct t as [[[t0 t1] t2] t3]. unfold fillTest.
  rewrite !andb_true_iff, negb_true_iff, !strictEq_true.
  rewrite <- not_true_iff_false, colorsMatch_true. unfold readColor. split.
  - intros [[[[Hn H0] H1] H2] H3]. rewrite H0, H1, H2, H3 in *. done.
  - intros [[= <- <- <- <-] Hn]. done.
Qed.

Lemma sameColor_true t c : sameColor t c = true <-> t = opaque c.
Proof.
  destruct t as [[[t0 t1] t2] t3], c as [[[r g] b] a]. unfold sameColor. cbn.
  rewrite !andb_true_iff, !strictEq_true. split.
  - intros [[[-> ->] ->] ->]. reflexivity.
  - intros [= -> -> -> ->]. done.
Qed.

Lemma clamp8_byte v : 0 <= v <= 255 -> JS.clamp8 v = v.
Proof. unfold JS.clamp8. lia. Qed.

(** The colours [hexToRgba] returns are stored as they are. *)
Lemma clampColor_hexToRgba hex : clampColor (hexToRgba hex) = hexToRgba hex.
Proof.
  destruct (hexToRgba_range hex) as (r & g & b & -> & ? & ? & ?). cbn.
  by rewrite !clamp8_byte by lia.
Qed.

End Buffer.

(** ** The loop of the flood fill *)

Section FloodLoop.

Variables (width height : Z) (target : Sample) (fill : RGBA).

Implicit Types (stack : list (Q * Q)) (data : list Z) (filled : list (Z * Z)).

Local Abbreviation loop fuel := (floodLoop fuel width height target fill).
Local Abbreviation loopLog fuel := (floodLoopLog fuel width height target fill).

(** The loop with the log computes what the loop computes. *)
Lemma floodLoop_erase fuel stack data filled n :
  loop fuel stack data = log_data <$> loopLog fuel stack data filled n.
Proof.
  revert stack data filled n. induction fuel as [|fuel IH]; [done|].
  intros [|[x y] stack] data filled n; [done|]. cbn [floodLoop floodLoopLog].
  destruct (outOfBounds _ _ _ _); [apply IH|].
  destruct (fillTest _ _ _ _); apply IH.
Qed.

(** The log tells all the writes: the buffer at the end is the buffer at the
    start with the logged pixels filled, and these lie on the grid. *)
Lemma floodLoopLog_writes fuel stack data filled n log :
  loopLog fuel stack data filled n = Some log ->
  exists filled',
    log_filled log = filled' ++ filled /\
    Forall (inGrid width height) filled' /\
    log_data log = applyFills width fill filled' data.
Proof.
  revert stack data filled n. induction fuel as [|fuel IH]; [done|].
  intros [|[x y] stack] data filled n; cbn [floodLoopLog].
  { intros [= <-]. exists []. by repeat split. }
  destruct (outOfBounds _ _ _ _) eqn:Hob; [apply IH|].
  destruct (fillTest _ _ _ _); [|apply IH].
  intros (filled' & -> & Hin & ->)%IH.
  exists (filled' ++ [(Qfloor x, Qfloor y)]). split; [by rewrite <- app_assoc|].
  split.
  - apply Forall_app. split; [done|].
    apply Forall_singleton. by apply outOfBounds_false.
  - unfold applyFills. by rewrite foldr_app.
Qed.


End FloodLoop.

(** ** The invariant of the loop *)

Section FloodInvariant.

Variables (ctx0 : Context2D) (target : Sample) (fill : RGBA) (seed : Z * Z).

Hypothesis ctx0_wellFormed : wellFormed ctx0.
Hypothesis fill_bytes : clampColor fill = fill.
Hypothesis target_not_fill : target <> opaque fill.

Implicit Types (stack : list (Q * Q)) (data : list Z) (p q : Z * Z).

Local Abbreviation width := (canvas_width ctx0).
Local Abbreviation height := (canvas_height ctx0).
Local Abbreviation Inv := (loopInvariant ctx0 target fill seed).

Lemma connected_target p :
  connected ctx0 target seed p -> inBounds ctx0 p /\ pixel ctx0 p = target.
Proof. by intros [|]. Qed.

Lemma pixelOf_inject (a b : Z) : pixelOf (inject_Z a) (inject_Z b) = (a, b).
Proof. unfold pixelOf. by rewrite !Qfloor_Z. Qed.

(** The pixels that wait on the stack after the neighbours were pushed. *)
Lemma waiting_pushNeighbors xi yi stack q :
  (exists x y, (x, y) ∈ pushNeighbors xi yi stack /\ q = pixelOf x y) <->
  adjacent4 (xi, yi) q \/ (exists x y, (x, y) ∈ stack /\ q = pixelOf x y).
Proof.
  unfold pushNeighbors, adjacent4. destruct q as [a b]. cbn. split.
  - intros (x & y & Hin & Hq). rewrite !elem_of_cons in Hin.
    destruct Hin as [ [= -> ->]|[ [= -> ->]|[ [= -> ->]|[ [= -> ->]|Hin]]]];
      [rewrite pixelOf_inject in Hq; injection Hq as -> ->; left; lia ..|].
    right. by exists x, y.
  - intros [Hadj|(x & y & Hin & Hq)].
    + destruct Hadj as [[-> ->] | [[-> ->] | [[-> ->] | [-> ->]]]];
        eexists _, _; (split; [|symmetry; apply pixelOf_inject]);
        rewrite !elem_of_cons; auto 6.
    + exists x, y. rewrite !elem_of_cons. auto 6.
Qed.

Lemma invariant_start x y :
  seed = pixelOf x y -> Inv [(x, y)] (surface ctx0).
Proof.
  intros ->. unfold loopInvariant. cbn zeta.
  split; [done|]. split; [by left|]. split.
  - intros q (x' & y' & [= -> ->]%list_elem_of_singleton & ->) Hq Ht.
    by constructor.
  - split.
    + intros p q _ Hpt Hpf. unfold pixel in Hpt. congruence.
    + intros _ _. right. exists x, y. by rewrite list_elem_of_singleton.
Qed.

Lemma invariant_skip x y stack data :
  ~ inBounds ctx0 (pixelOf x y) -> Inv ((x, y) :: stack) data -> Inv stack data.
Proof.
  unfold loopInvariant. cbn zeta.
  intros Hout (Hlen & Hpix & Hstack & Hadj & Hseed).
  assert (Hwait : forall q, inBounds ctx0 q ->
            (exists x' y', (x', y') ∈ (x, y) :: stack /\ q = pixelOf x' y') ->
            exists x' y', (x', y') ∈ stack /\ q = pixelOf x' y').
  { intros q Hq (x' & y' & [ [= -> ->]|Hin]%elem_of_cons & ->); [done|].
    by exists x', y'. }
  split; [done|]. split; [done|]. split.
  - intros q (x' & y' & Hin & ->). apply Hstack. exists x', y'.
    split; [by apply elem_of_cons; right | done].
  - split.
    + intros p q Hp Hpt Hpf Hpq Hq Hqt.
      destruct (Hadj p q) as [?|?]; auto.
    + intros Hs Hst. destruct Hseed as [?|?]; auto.
Qed.

Lemma invariant_pass x y stack data :
  inBounds ctx0 (pixelOf x y) -> pixelAt width data (pixelOf x y) <> target ->
  Inv ((x, y) :: stack) data -> Inv stack data.
Proof.
  unfold loopInvariant. cbn zeta.
  intros Hin Hnt (Hlen & Hpix & Hstack & Hadj & Hseed).
  assert (Hwait : forall q, inBounds ctx0 q -> pixel ctx0 q = target ->
            (exists x' y', (x', y') ∈ (x, y) :: stack /\ q = pixelOf x' y') ->
            pixelAt width data q = opaque fill \/
            exists x' y', (x', y') ∈ stack /\ q = pixelOf x' y').
  { intros q Hq Hqt (x' & y' & [ [= -> ->]|Hin']%elem_of_cons & ->).
    - left. destruct (Hpix _ Hq) as [E|[E _]]; [congruence | done].
    - right. by exists x', y'. }
  split; [done|]. split; [done|]. split.
  - intros q (x' & y' & Hin' & ->). apply Hstack. exists x', y'.
    split; [by apply elem_of_cons; right | done].
  - split.
    + intros p q Hp Hpt Hpf Hpq Hq Hqt.
      destruct (Hadj p q) as [?|?]; auto.
    + intros Hs Hst. destruct Hseed as [?|?]; auto.
Qed.

Lemma invariant_fill x y stack data :
  inBounds ctx0 (pixelOf x y) -> pixelAt width data (pixelOf x y) = target ->
  Inv ((x, y) :: stack) data ->
  Inv (pushNeighbors (Qfloor x) (Qfloor y) stack)
      (fillPixel data fill (offset width (pixelOf x y))).
Proof.
  unfold loopInvariant. cbn zeta.
  intros Hin Ht (Hlen & Hpix & Hstack & Hadj & Hseed).
  set (pp := pixelOf x y) in *.
  set (data' := fillPixel data fill (offset width pp)).
  destruct ctx0_wellFormed as (Hw & Hh & Hsize).
  assert (Hsize' : Z.of_nat (length data) = 4 * width * height) by congruence.
  assert (Hpp : pixelAt width data' pp = opaque fill).
  { unfold data'. erewrite pixelAt_fillPixel_eq by eassumption. by rewrite fill_bytes. }
  assert (Hother : forall q, inBounds ctx0 q -> q <> pp ->
            pixelAt width data' q = pixelAt width data q).
  { intros q Hq Hne. by apply (pixelAt_fillPixel_ne width height). }
  assert (Hpp0 : pixel ctx0 pp = target).
  { destruct (Hpix _ Hin) as [E|[E _]]; congruence. }
  assert (Hconn : connected ctx0 target seed pp).
  { apply Hstack; [|done..]. exists x, y. split; [apply elem_of_cons; by left | done]. }
  assert (Hkeep : forall q, inBounds ctx0 q ->
            pixelAt width data q = opaque fill \/
              (exists x' y', (x', y') ∈ (x, y) :: stack /\ q = pixelOf x' y') ->
            pixelAt width data' q = opaque fill \/
              (exists x' y', (x', y') ∈ pushNeighbors (Qfloor x) (Qfloor y) stack /\
                             q = pixelOf x' y')).
  { intros q Hq Hold. destruct (decide (q = pp)) as [->|Hne]; [by left|].
    destruct Hold as [E|(x' & y' & [ [= -> ->]|Hin']%elem_of_cons & ->)].
    - left. by rewrite Hother.
    - done.
    - right. apply waiting_pushNeighbors. right. by exists x', y'. }
  split; [unfold data'; by rewrite length_fillPixel|]. split.
  { intros p Hp. destruct (decide (p = pp)) as [->|Hne]; [by right|].
    rewrite Hother by done. apply Hpix, Hp. }
  split.
  { intros q [Hq|Hq]%waiting_pushNeighbors Hqin Hqt.
    - by apply (connected_step _ _ _ pp).
    - destruct Hq as (x' & y' & Hin' & ->). apply Hstack; [|done..].
      exists x', y'. split; [by apply elem_of_cons; right | done]. }
  split.
  - intros p q Hp Hpt Hpf Hpq Hq Hqt.
    destruct (decide (p = pp)) as [->|Hne].
    + right. apply waiting_pushNeighbors. by left.
    + rewrite Hother in Hpf by done. apply Hkeep; [done|]. by apply (Hadj p q).
  - intros Hs Hst. apply Hkeep; [done|]. by apply Hseed.
Qed.

(** With the stack empty the filled pixels are those a path leads to. *)
Lemma invariant_end data p :
  Inv [] data -> inBounds ctx0 p ->
  (connected ctx0 target seed p -> pixelAt width data p = opaque fill) /\
  (~ connected ctx0 target seed p -> pixelAt width data p = pixel ctx0 p).
Proof.
  unfold loopInvariant. cbn zeta.
  intros (Hlen & Hpix & Hstack & Hadj & Hseed) Hp.
  assert (Hempty : forall q, ~ exists x y, (x, y) ∈ @nil (Q * Q) /\ q = pixelOf x y).
  { intros q (x & y & Hin & _). by apply elem_of_nil in Hin. }
  split.
  - clear Hp. induction 1 as [Hs Hst|p q Hc IH Hpq Hq Hqt].
    + destruct Hseed as [?|?]; [done..|]. by apply Hempty in H.
    + apply connected_target in Hc as [Hp Hpt].
      destruct (Hadj p q) as [?|?]; try done. by apply Hempty in H.
  - intros Hnc. destruct (Hpix _ Hp) as [?|[_ ?]]; done.
Qed.

End FloodInvariant.

(** ** Termination of the loop *)

Section FloodRun.

Variables (ctx0 : Context2D) (target : Sample) (fill : RGBA) (seed : Z * Z).

Hypothesis ctx0_wellFormed : wellFormed ctx0.
Hypothesis fill_bytes : clampColor fill = fill.
Hypothesis target_not_fill : target <> opaque fill.

Implicit Types (stack : list (Q * Q)) (data : list Z) (p q : Z * Z).

Local Abbreviation width := (canvas_width ctx0).
Local Abbreviation height := (canvas_height ctx0).
Local Abbreviation loopLog fuel := (floodLoopLog fuel width height target fill).
Local Abbreviation count := (targetCount width height target).

Lemma elem_of_allPixels w h p :
  0 <= w -> 0 <= h -> p ∈ allPixels w h <-> inGrid w h p.
Proof.
  intros Hw Hh. unfold allPixels, inGrid. rewrite list_elem_of_fmap.
  setoid_rewrite elem_of_seqZ. destruct p as [x y]. cbn. split.
  - intros (i & [= -> ->] & Hi). assert (0 < w) by nia.
    split; [apply Z.mod_pos_bound; lia|].
    split; [apply Z.div_pos; lia|]. apply Z.div_lt_upper_bound; lia.
  - intros [Hx Hy]. exists (y * w + x). split; [|nia].
    f_equal.
    + apply (Z.mod_unique_pos _ _ y); lia.
    + apply (Z.div_unique_pos _ _ _ x); lia.
Qed.

Lemma length_allPixels w h : length (allPixels w h) = Z.to_nat (w * h).
Proof. unfold allPixels. by rewrite length_fmap, length_seqZ. Qed.

Lemma length_filter_decrease {A : Type} (P Q : A -> Prop)
    `{!forall x, Decision (P x)} `{!forall x, Decision (Q x)} (l : list A) (x : A) :
  (forall y, y ∈ l -> Q y -> P y) -> x ∈ l -> P x -> ~ Q x ->
  (length (filter Q l) < length (filter P l))%nat.
Proof.
  intros Himp Hx HP HQ.
  assert (Hle : forall k : list A, (forall y, y ∈ k -> Q y -> P y) ->
            (length (filter Q k) <= length (filter P k))%nat).
  { induction k as [|y k IH]; intros Hk; [done|].
    assert (IH' := IH (fun z Hz => Hk z (list_elem_of_further _ _ _ Hz))).
    rewrite !filter_cons. destruct (decide (Q y)) as [Hy|Hy].
    - rewrite decide_True by (apply Hk; [apply list_elem_of_here | done]).
      cbn. lia.
    - destruct (decide (P y)); cbn; lia. }
  induction l as [|y l IH]; [by apply elem_of_nil in Hx|].
  assert (Hl := Hle l (fun z Hz => Himp z (list_elem_of_further _ _ _ Hz))).
  rewrite !filter_cons. apply elem_of_cons in Hx as [<-|Hx].
  - rewrite decide_False, decide_True by done. cbn. lia.
  - assert (IH' := IH (fun z Hz => Himp z (list_elem_of_further _ _ _ Hz)) Hx).
    destruct (decide (Q y)) as [Hy|Hy].
    + rewrite decide_True by (apply Himp; [apply list_elem_of_here | done]).
      cbn. lia.
    + destruct (decide (P y)); cbn; lia.
Qed.

Lemma count_bound data : (count data <= Z.to_nat (width * height))%nat.
Proof.
  unfold targetCount. rewrite <- length_allPixels. apply length_filter.
Qed.

(** A fill takes one pixel away from those of the target colour. *)
Lemma count_fillPixel data p :
  Z.of_nat (length data) = 4 * width * height ->
  inBounds ctx0 p -> pixelAt width data p = target ->
  (count (fillPixel data fill (offset width p)) < count data)%nat.
Proof.
  intros Hlen Hp Ht. destruct ctx0_wellFormed as (Hw & Hh & _).
  unfold targetCount. apply (length_filter_decrease _ _ _ p).
  - intros q Hq%elem_of_allPixels; [|done..].
    destruct (decide (q = p)) as [->|Hne].
    + erewrite pixelAt_fillPixel_eq by eassumption. rewrite fill_bytes.
      intros E. by destruct target_not_fill.
    + by erewrite pixelAt_fillPixel_ne.
  - by apply elem_of_allPixels.
  - done.
  - erewrite pixelAt_fillPixel_eq by eassumption. rewrite fill_bytes.
    intros E. by destruct target_not_fill.
Qed.

(** With fuel above four times the pixels of the target colour plus the
    height of the stack, the loop comes to its end; no pixel is filled twice,
    the filled pixels had the target colour, and each turn pops either an
    entry of the first stack or one of the four pushed by a fill. *)
Lemma floodLoopLog_terminates fuel stack data filled n :
  Z.of_nat (length data) = 4 * width * height ->
  (4 * count data + length stack < fuel)%nat ->
  exists log filled',
    loopLog fuel stack data filled n = Some log /\
    log_filled log = filled' ++ filled /\
    log_iterations log = (n + length stack + 4 * length filled')%nat /\
    (length filled' <= count data)%nat /\
    NoDup filled' /\
    forall p, p ∈ filled' -> inBounds ctx0 p /\ pixelAt width data p = target.
Proof.
  revert stack data filled n. induction fuel as [|fuel IH]; [lia|].
  intros [|[x y] stack] data filled n Hlen Hfuel; cbn [floodLoopLog].
  { exists (mkLoopLog data filled n), []. cbn.
    split; [done|]. split; [done|]. split; [lia|]. split; [lia|].
    split; [constructor|]. by intros p ?%elem_of_nil. }
  cbn [length] in Hfuel.
  destruct (outOfBounds _ _ _ _) eqn:Hob.
  { destruct (IH stack data filled (S n) Hlen ltac:(lia))
      as (log & filled' & -> & Hfilled & Hiter & Hrest).
    exists log, filled'. split; [done|]. split; [done|].
    split; [cbn [length]; lia | exact Hrest]. }
  apply outOfBounds_false in Hob.
  destruct (fillTest _ _ _ _) eqn:Hft; cycle 1.
  { destruct (IH stack data filled (S n) Hlen ltac:(lia))
      as (log & filled' & -> & Hfilled & Hiter & Hrest).
    exists log, filled'. split; [done|]. split; [done|].
    split; [cbn [length]; lia | exact Hrest]. }
  apply fillTest_true in Hft as [Ht _].
  change (pixelAt width data (Qfloor x, Qfloor y) = target) in Ht.
  set (pp := (Qfloor x, Qfloor y)) in *.
  change ((Qfloor y * width + Qfloor x) * 4) with (offset width pp).
  assert (Hcount := count_fillPixel data pp Hlen Hob Ht).
  set (data' := fillPixel data fill (offset width pp)) in *.
  assert (Hlen' : Z.of_nat (length data') = 4 * width * height)
    by (unfold data'; by rewrite length_fillPixel).
  destruct (IH (pushNeighbors (Qfloor x) (Qfloor y) stack) data'
              (pp :: filled) (S n) Hlen' ltac:(cbn [pushNeighbors length]; lia))
    as (log & filled' & -> & Hfilled & Hiter & Hle & Hnodup & Hall).
  assert (Hpp : pixelAt width data' pp <> target).
  { unfold data'. destruct ctx0_wellFormed as (Hw & Hh & _).
    erewrite pixelAt_fillPixel_eq by eassumption. rewrite fill_bytes.
    intros E. by destruct target_not_fill. }
  assert (Hfresh : pp ∉ filled') by (intros [_ E]%Hall; done).
  exists log, (filled' ++ [pp]). split; [done|].
  split; [by rewrite <- app_assoc|].
  split; [rewrite Hiter, length_app; cbn [pushNeighbors length]; lia|].
  split; [rewrite length_app; cbn [length]; lia|].
  split.
  - apply NoDup_app. split; [done|]. split; [|apply NoDup_singleton].
    by intros q Hq ->%list_elem_of_singleton.
  - intros q [Hq| ->%list_elem_of_singleton]%elem_of_app; [|done].
    destruct (Hall q Hq) as [Hin Hqt]. split; [done|].
    rewrite <- Hqt. symmetry. apply (pixelAt_fillPixel_ne width height); [done..|].
    by intros ->.
Qed.

(** The invariant holds at the end of the loop when it holds at its start. *)
Lemma floodLoopLog_invariant fuel stack data filled n log :
  loopInvariant ctx0 target fill seed stack data ->
  loopLog fuel stack data filled n = Some log ->
  loopInvariant ctx0 target fill seed [] (log_data log).
Proof.
  revert stack data filled n. induction fuel as [|fuel IH]; [done|].
  intros [|[x y] stack] data filled n Hinv; cbn [floodLoopLog].
  { by intros [= <-]. }
  destruct (outOfBounds _ _ _ _) eqn:Hob.
  { apply IH. apply outOfBounds_true in Hob. by eapply invariant_skip. }
  apply outOfBounds_false in Hob.
  destruct (fillTest _ _ _ _) eqn:Hft.
  - apply fillTest_true in Hft as [Ht _]. apply IH.
    by apply invariant_fill.
  - apply IH. eapply invariant_pass; [exact Hob| |exact Hinv].
    intros Ht. apply not_true_iff_false in Hft. apply Hft, fillTest_true.
    split; [exact Ht|]. by rewrite fill_bytes.
Qed.

End FloodRun.

(** ** A call of [floodFill] *)

Section FloodFill.

Implicit Types (ctx : Context2D) (data : list Z) (p q : Z * Z) (c : RGBA).

Lemma putImageData_surface ctx : putImageData ctx (surface ctx) = ctx.
Proof. by destruct ctx. Qed.

(** [floodFill] leaves the buffer of the log of its loop. *)
Lemma floodFill_erase fuel ctx startX startY fillHex :
  floodFill fuel ctx startX startY fillHex =
  (fun log => putImageData ctx (log_data log)) <$>
    floodFillLog fuel ctx startX startY fillHex.
Proof.
  unfold floodFill, floodFillLog.
  destruct (sameColor _ _); [cbn; by rewrite putImageData_surface|].
  rewrite (floodLoop_erase _ _ _ _ _ _ _ [] 0%nat).
  by destruct (floodLoopLog _ _ _ _ _ _ _ _ _).
Qed.

(** The log of a call tells all its writes, and they are on the grid. *)
Lemma floodFillLog_writes fuel ctx startX startY fillHex log :
  floodFillLog fuel ctx startX startY fillHex = Some log ->
  Forall (inBounds ctx) (log_filled log) /\
  log_data log =
    applyFills (canvas_width ctx) (hexToRgba fillHex) (log_filled log) (surface ctx).
Proof.
  unfold floodFillLog. destruct (sameColor _ _); [by intros [= <-]|].
  intros (filled' & -> & Hin & ->)%floodLoopLog_writes.
  by rewrite app_nil_r.
Qed.

Lemma applyFills_cons width c p filled data :
  applyFills width c (p :: filled) data =
  fillPixel (applyFills width c filled data) c (offset width p).
Proof. reflexivity. Qed.

Lemma length_applyFills width c filled data :
  length (applyFills width c filled data) = length data.
Proof.
  induction filled as [|p filled IH]; [done|].
  by rewrite applyFills_cons, length_fillPixel.
Qed.

(** A pixel of the log reads as the fill colour in the end. *)
Lemma pixelAt_applyFills_in width height c filled data p :
  Z.of_nat (length data) = 4 * width * height ->
  Forall (inGrid width height) filled -> p ∈ filled ->
  pixelAt width (applyFills width c filled data) p = opaque (clampColor c).
Proof.
  intros Hlen. induction 1 as [|q filled Hq Hall IH]; [by intros ?%elem_of_nil|].
  intros Hp. rewrite applyFills_cons. destruct (decide (p = q)) as [->|Hne].
  - apply (pixelAt_fillPixel_eq width height); [|done].
    by rewrite length_applyFills.
  - apply elem_of_cons in Hp as [?|Hp]; [done|].
    rewrite (pixelAt_fillPixel_ne width height); try done.
    + by apply IH.
    + eapply Forall_forall in Hall; eauto.
Qed.

(** A pixel of the grid that is not in the log reads as it did. *)
Lemma pixelAt_applyFills_notin width height c filled data p :
  inGrid width height p -> Forall (inGrid width height) filled -> p ∉ filled ->
  pixelAt width (applyFills width c filled data) p = pixelAt width data p.
Proof.
  intros Hp. induction 1 as [|q filled Hq Hall IH]; [done|].
  intros [Hne Hnotin]%not_elem_of_cons. rewrite applyFills_cons.
  rewrite (pixelAt_fillPixel_ne width height); auto.
Qed.

(** A call that enters the loop, on a well-formed canvas and with enough
    fuel: the loop ends, and its log and the invariant describe the result. *)
Lemma floodFill_run fuel ctx startX startY fillHex :
  let seed := pixelOf startX startY in
  let target := pixel ctx seed in
  let fillColor := hexToRgba fillHex in
  wellFormed ctx -> target <> opaque fillColor -> (enoughFuel ctx <= fuel)%nat ->
  exists log,
    floodFillLog fuel ctx startX startY fillHex = Some log /\
    floodFill fuel ctx startX startY fillHex = Some (putImageData ctx (log_data log)) /\
    NoDup (log_filled log) /\
    (length (log_filled log) <= Z.to_nat (canvas_width ctx * canvas_height ctx))%nat /\
    log_iterations log = (1 + 4 * length (log_filled log))%nat /\
    (forall p, p ∈ log_filled log -> inBounds ctx p /\ pixel ctx p = target) /\
    loopInvariant ctx target fillColor seed [] (log_data log).
Proof.
  intros seed target fillColor Hwf Hdiff Hfuel.
  assert (Hbytes := clampColor_hexToRgba fillHex). fold fillColor in Hbytes.
  assert (Hsame : sameColor target fillColor = false).
  { apply not_true_iff_false. by rewrite sameColor_true. }
  assert (Hcount := count_bound ctx target (surface ctx)).
  destruct (floodLoopLog_terminates ctx target fillColor Hwf Hbytes Hdiff
              fuel [(startX, startY)] (surface ctx) [] 0%nat)
    as (log & filled' & Hlog & Hfilled & Hiter & Hle & Hnodup & Hall).
  { destruct Hwf as (_ & _ & Hlen). exact Hlen. }
  { unfold enoughFuel in Hfuel. cbn [length]. lia. }
  rewrite app_nil_r in Hfilled. subst filled'.
  assert (HfillLog : floodFillLog fuel ctx startX startY fillHex = Some log).
  { unfold floodFillLog. fold (pixelOf startX startY).
    change (readColor _ _) with target. fold fillColor. by rewrite Hsame. }
  exists log. split; [done|].
  split; [by rewrite floodFill_erase, HfillLog|].
  split; [done|]. split; [lia|]. split; [cbn [length] in Hiter; lia|].
  split; [exact Hall|].
  eapply (floodLoopLog_invariant ctx target fillColor seed Hwf Hbytes Hdiff);
    [|exact Hlog].
  by apply invariant_start.
Qed.

End FloodFill.

(** C1. On a well-formed canvas, with the seed on the grid and of a colour
    other than the fill colour, [floodFill] returns a canvas of the same
    size in which a pixel of the grid has the fill colour when a 4-connected
    path of pixels of the seed's first colour leads to it from the seed, and
    has the colour it had otherwise; the pixels the loop has filled are
    those a path leads to, and no other. *)
Theorem floodFill_fills_component (fuel : nat) (ctx : Context2D)
    (startX startY : Q) (fillHex : string) :
  let seed := pixelOf startX startY in
  let target := pixel ctx seed in
  let fillColor := hexToRgba fillHex in
  wellFormed ctx -> inBounds ctx seed -> target <> opaque fillColor ->
  (enoughFuel ctx <= fuel)%nat ->
  exists ctx' log,
    floodFill fuel ctx startX startY fillHex = Some ctx' /\
    canvas_width ctx' = canvas_width ctx /\
    canvas_height ctx' = canvas_height ctx /\
    length (surface ctx') = length (surface ctx) /\
    (forall p, inBounds ctx p ->
       (connected ctx target seed p -> pixel ctx' p = opaque fillColor) /\
       (~ connected ctx target seed p -> pixel ctx' p = pixel ctx p)) /\
    floodFillLog fuel ctx startX startY fillHex = Some log /\
    surface ctx' = log_data log /\
    (forall p, p ∈ log_filled log <-> connected ctx target seed p).
Proof.
  intros seed target fillColor Hwf Hseed Hdiff Hfuel.
  destruct (floodFill_run fuel ctx startX startY fillHex Hwf Hdiff Hfuel)
    as (log & Hlog & Hrun & _ & _ & _ & Hall & Hinv).
  assert (Hend := fun p => invariant_end ctx target fillColor seed _ p Hinv).
  exists (putImageData ctx (log_data log)), log.
  split; [exact Hrun|]. split; [done|]. split; [done|].
  split; [by destruct Hinv as [Hlen _]|].
  split; [exact Hend|]. split; [exact Hlog|]. split; [done|].
  destruct (floodFillLog_writes _ _ _ _ _ _ Hlog) as [Hgrid Hdata].
  destruct Hwf as (_ & _ & Hlen).
  intros p. split.
  - intros Hp. destruct (Hall p Hp) as [Hin Hpt].
    destruct Hinv as (_ & Hpix & _). destruct (Hpix p Hin) as [Hsame|[_ Hc]]; [|done].
    rewrite Hdata in Hsame.
    rewrite (pixelAt_applyFills_in _ (canvas_height ctx)) in Hsame by done.
    rewrite clampColor_hexToRgba in Hsame.
    exfalso. apply Hdiff. unfold target, seed, fillColor. congruence.
  - intros Hc. destruct (connected_target _ _ _ _ Hc) as [Hin Hpt].
    destruct (decide (p ∈ log_filled log)) as [|Hnotin]; [done|].
    destruct (Hend p Hin) as [Hfill _]. specialize (Hfill Hc).
    rewrite Hdata in Hfill.
    rewrite (pixelAt_applyFills_notin _ (canvas_height ctx)) in Hfill by done.
    exfalso. apply Hdiff. unfold pixel in Hpt. congruence.
Qed.

Lemma floodFill_fills_component_witness :
  exists ctx' log,
    floodFill 18 sampleCanvas (1 # 2) (1 # 2) "#FF0000" = Some ctx' /\
    canvas_width ctx' = 2 /\
    canvas_height ctx' = 2 /\
    length (surface ctx') = 16%nat /\
    (forall p, inBounds sampleCanvas p ->
       (connected sampleCanvas (Some 1, Some 2, Some 3, Some 4) (0, 0) p ->
        pixel ctx' p = (Some 255, Some 0, Some 0, Some 255)) /\
       (~ connected sampleCanvas (Some 1, Some 2, Some 3, Some 4) (0, 0) p ->
        pixel ctx' p = pixel sampleCanvas p)) /\
    floodFillLog 18 sampleCanvas (1 # 2) (1 # 2) "#FF0000" = Some log /\
    surface ctx' = log_data log /\
    (forall p, p ∈ log_filled log <->
               connected sampleCanvas (Some 1, Some 2, Some 3, Some 4) (0, 0) p).
Proof.
  apply (floodFill_fills_component 18 sampleCanvas (1 # 2) (1 # 2) "#FF0000").
  - unfold wellFormed. cbn. lia.
  - change (inGrid 2 2 (0, 0)). unfold inGrid. cbn. lia.
  - discriminate.
  - unfold enoughFuel. cbn. lia.
Defined.

Example floodFill_sample :
  floodFill 18 sampleCanvas (1 # 2) (1 # 2) "#FF0000" =
  Some {| canvas_width := 2; canvas_height := 2;
          surface := [255; 0; 0; 255;  9; 9; 9; 9;
                      9; 9; 9; 9;  1; 2; 3; 4] |}.
Proof. reflexivity. Qed.

(** C5. On a well-formed canvas and with the seed on the grid: the fill
    colour has alpha 255; when the seed already has the fill colour the call
    returns the canvas as it is; and a second call, with the same seed and
    colour, on the result of a first call returns that result unchanged. *)
Theorem floodFill_idempotent (fuel : nat) (ctx : Context2D)
    (startX startY : Q) (fillHex : string) :
  wellFormed ctx -> inBounds ctx (pixelOf startX startY) ->
  (hexToRgba fillHex).2 = 255 /\
  (pixel ctx (pixelOf startX startY) = opaque (hexToRgba fillHex) ->
   floodFill fuel ctx startX startY fillHex = Some ctx) /\
  ((enoughFuel ctx <= fuel)%nat ->
   exists ctx',
     floodFill fuel ctx startX startY fillHex = Some ctx' /\
     floodFill fuel ctx' startX startY fillHex = Some ctx').
Proof.
  intros Hwf Hseed. split; [done|].
  assert (Hsame : forall c : Context2D,
            pixel c (pixelOf startX startY) = opaque (hexToRgba fillHex) ->
            floodFill fuel c startX startY fillHex = Some c).
  { intros c Hc. unfold floodFill.
    change (readColor _ _) with (pixel c (pixelOf startX startY)).
    apply sameColor_true in Hc. by rewrite Hc. }
  split; [apply Hsame|]. intros Hfuel.
  destruct (decide (pixel ctx (pixelOf startX startY) = opaque (hexToRgba fillHex)))
    as [Heq|Hdiff].
  { exists ctx. split; by apply Hsame. }
  destruct (floodFill_run fuel ctx startX startY fillHex Hwf Hdiff Hfuel)
    as (log & _ & Hrun & _ & _ & _ & _ & Hinv).
  exists (putImageData ctx (log_data log)). split; [exact Hrun|].
  apply Hsame.
  eapply (invariant_end ctx _ _ _ _ _ Hinv Hseed). by constructor.
Qed.

Lemma floodFill_idempotent_witness :
  (hexToRgba "#FF0000").2 = 255 /\
  (pixel sampleCanvas (pixelOf (1 # 2) (1 # 2)) = opaque (hexToRgba "#FF0000") ->
   floodFill 18 sampleCanvas (1 # 2) (1 # 2) "#FF0000" = Some sampleCanvas) /\
  ((enoughFuel sampleCanvas <= 18)%nat ->
   exists ctx',
     floodFill 18 sampleCanvas (1 # 2) (1 # 2) "#FF0000" = Some ctx' /\
     floodFill 18 ctx' (1 # 2) (1 # 2) "#FF0000" = Some ctx').
Proof.
  apply (floodFill_idempotent 18 sampleCanvas (1 # 2) (1 # 2) "#FF0000").
  - unfold wellFormed. cbn. lia.
  - change (inGrid 2 2 (0, 0)). unfold inGrid. cbn. lia.
Defined.

(** The loop on a finite seed. On a well-formed canvas, for every finite
    seed and fill colour, [floodFill] returns a canvas as soon as the fuel is
    [enoughFuel]: the loop ends after at most one turn plus four for each
    filled pixel, no pixel is filled twice, so that there are at most width
    times height fills, and a filled pixel, which had the seed's colour, has
    another colour in the end. *)
Lemma floodFill_finite_seed_terminates (fuel : nat) (ctx : Context2D)
    (startX startY : Q) (fillHex : string) :
  wellFormed ctx -> (enoughFuel ctx <= fuel)%nat ->
  exists log ctx',
    floodFillLog fuel ctx startX startY fillHex = Some log /\
    floodFill fuel ctx startX startY fillHex = Some ctx' /\
    surface ctx' = log_data log /\
    NoDup (log_filled log) /\
    (length (log_filled log) <= Z.to_nat (canvas_width ctx * canvas_height ctx))%nat /\
    (log_iterations log <= 1 + 4 * length (log_filled log))%nat /\
    (log_iterations log < fuel)%nat /\
    forall p, p ∈ log_filled log ->
      inBounds ctx p /\
      pixel ctx p = pixel ctx (pixelOf startX startY) /\
      pixel ctx' p = opaque (hexToRgba fillHex) /\
      pixel ctx' p <> pixel ctx (pixelOf startX startY).
Proof.
  intros Hwf Hfuel.
  destruct (decide (pixel ctx (pixelOf startX startY) = opaque (hexToRgba fillHex)))
    as [Heq|Hdiff].
  { exists (mkLoopLog (surface ctx) [] 0), ctx.
    assert (Hsame := proj2 (sameColor_true _ _) Heq).
    unfold floodFill, floodFillLog.
    change (readColor _ _) with (pixel ctx (pixelOf startX startY)).
    rewrite Hsame. cbn [log_data log_filled log_iterations length].
    split; [done|]. split; [done|]. split; [done|]. split; [constructor|].
    split; [lia|]. split; [lia|]. split; [unfold enoughFuel in Hfuel; lia|].
    by intros p ?%elem_of_nil. }
  destruct (floodFill_run fuel ctx startX startY fillHex Hwf Hdiff Hfuel)
    as (log & Hlog & Hrun & Hnodup & Hle & Hiter & Hall & _).
  exists log, (putImageData ctx (log_data log)).
  split; [done|]. split; [done|]. split; [done|]. split; [done|].
  split; [done|]. split; [lia|]. split; [unfold enoughFuel in Hfuel; lia|].
  intros p Hp. destruct (Hall p Hp) as [Hin Hpt].
  split; [done|]. split; [done|].
  apply floodFillLog_writes in Hlog as [Hgrid Hdata].
  assert (Hfilled : pixel (putImageData ctx (log_data log)) p = opaque (hexToRgba fillHex)).
  { unfold pixel. cbn [putImageData canvas_width surface]. rewrite Hdata.
    rewrite <- (clampColor_hexToRgba fillHex) at 2.
    apply (pixelAt_applyFills_in _ (canvas_height ctx)); [|done..].
    by destruct Hwf as (_ & _ & Hlen). }
  split; [done|]. rewrite Hfilled. by intros E.
Qed.

Example floodFillLog_sample :
  floodFillLog 18 sampleCanvas (1 # 2) (1 # 2) "#FF0000" =
  Some {| log_data := [255; 0; 0; 255;  9; 9; 9; 9;  9; 9; 9; 9;  1; 2; 3; 4];
          log_filled := [(0, 0)]; log_iterations := 5 |}.
Proof. reflexivity. Qed.

(** Why the canvas has to be well formed: on a buffer that is too short for
    the grid, which [getImageData] never returns, the store of a fill is
    lost and the pixel is found with the target colour, [undefined] four
    times, again and again. *)
Example floodFill_short_buffer :
  floodFill 1000 (mkContext2D 2 2 [7; 7; 7; 7]) 1 0 "#FF0000" = None.
Proof. vm_compute. reflexivity. Qed.



(** With the seed one column off the grid, the colour that is read as the
    target is that of the first pixel of the next row. *)
Example floodFill_seed_off_grid :
  floodFill 2 sampleCanvas 2 0 "#090909" = Some sampleCanvas /\
  readColor (surface sampleCanvas) (offset 2 (2, 0)) = pixel sampleCanvas (0, 1).
Proof. split; reflexivity. Qed.

(** * Further properties *)

(** ** Colour parsing on other texts *)

Section ColourTexts.

Lemma toInt32_cases v :
  0 <= v < 4294967296 ->
  JS.toInt32 v = if 2147483648 <=? v then v - 4294967296 else v.
Proof.
  intros Hv. unfold JS.toInt32.
  change (2 ^ 31) with 2147483648. change (2 ^ 32) with 4294967296.
  by rewrite Z.mod_small by lia.
Qed.

(** The channels come from the low 24 bits of the number that was parsed. *)
Lemma channels_of_uint32 v :
  0 <= v < 4294967296 ->
  JS.band (JS.sar (Some v) 16) 255 = (v / 65536) mod 256 /\
  JS.band (JS.sar (Some v) 8) 255 = (v / 256) mod 256 /\
  JS.band (Some v) 255 = v mod 256.
Proof.
  intros Hv. rewrite !band_255. cbn [JS.sar JS.int32_of].
  rewrite !Z.shiftr_div_pow2 by lia.
  change (2 ^ 16) with 65536. change (2 ^ 8) with 256.
  rewrite (toInt32_cases v) by lia.
  destruct (Z.leb_spec 2147483648 v).
  - rewrite !toInt32_small by zlia. zlia.
  - rewrite !toInt32_small by zlia. zlia.
Qed.

Lemma parseInt16_hexShort upper r g b :
  0 <= r < 16 -> 0 <= g < 16 -> 0 <= b < 16 ->
  JS.parseInt16 (JS.removeFirst "#" (hexShort upper r g b)) =
  Some (r * 256 + g * 16 + b).
Proof.
  intros Hr Hg Hb. unfold hexShort.
  change (JS.removeFirst "#" (String "#" ?s)) with s.
  unfold JS.parseInt16.
  assert (H1 := hexDigitValue_char upper r Hr).
  assert (H2 := hexDigitValue_char upper g Hg).
  assert (H3 := hexDigitValue_char upper b Hb).
  erewrite trimStart_digit, stripSign_digit, stripHexPrefix_digits by eassumption.
  cbn [JS.parseDigits]. rewrite H1, H2, H3.
  rewrite toNumber_small by lia. f_equal. lia.
Qed.

Lemma parseInt16_hexColorAlpha upper R G B A :
  0 <= R <= 255 -> 0 <= G <= 255 -> 0 <= B <= 255 -> 0 <= A <= 255 ->
  JS.parseInt16 (JS.removeFirst "#" (hexColorAlpha upper R G B A)) =
  Some (R * 16777216 + G * 65536 + B * 256 + A).
Proof.
  intros HR HG HB HA. unfold hexColorAlpha.
  change (JS.removeFirst "#" (String "#" ?s)) with s.
  unfold JS.parseInt16.
  assert (H1 := hexDigitValue_char upper (R / 16) ltac:(zlia)).
  assert (H2 := hexDigitValue_char upper (R mod 16) ltac:(zlia)).
  unfold hexByte at 1.
  erewrite trimStart_digit, stripSign_digit, stripHexPrefix_digits by eassumption.
  fold (hexByte upper R (hexByte upper G (hexByte upper B (hexByte upper A EmptyString)))).
  rewrite !parseDigits_hexByte by lia. cbn [JS.parseDigits].
  rewrite toNumber_small by lia. f_equal. lia.
Qed.

End ColourTexts.

(** X1. Whatever the string, [hexToRgba] returns three bytes and the alpha
    255. *)
Theorem hexToRgba_bytes (hex : string) :
  exists r g b,
    hexToRgba hex = (r, g, b, 255) /\ isByte r /\ isByte g /\ isByte b.
Proof.
  unfold hexToRgba, isByte. do 3 eexists. split; [reflexivity|].
  rewrite !band_255. repeat split; zlia.
Qed.

(** X2. A text with no digit to parse gives black: the empty text, [#]
    alone, and every text that starts, after no [#], with a character that is
    no hexadecimal digit, no white space and no sign, as the names and the
    functional notations of colours that do not start with a to f. *)
Theorem hexToRgba_unparsable (c : ascii) (rest : string) :
  JS.hexDigitValue c = None -> JS.isWhiteSpace c = false ->
  c <> "+"%char -> c <> "-"%char -> c <> "#"%char ->
  hexToRgba (String c rest) = (0, 0, 0, 255) /\
  hexToRgba (String "#" (String c rest)) = (0, 0, 0, 255) /\
  hexToRgba "" = (0, 0, 0, 255) /\
  hexToRgba "#" = (0, 0, 0, 255).
Proof.
  intros Hd Hw Hplus Hminus Hhash.
  assert (Hparse : forall s, JS.parseInt16 (String c s) = None).
  { intros s. unfold JS.parseInt16. cbn [JS.trimStart]. rewrite Hw.
    revert Hd Hw Hplus Hminus.
    destruct c as [[] [] [] [] [] [] [] []]; intros Hd Hw Hplus Hminus;
      try done; cbn [JS.stripSign JS.stripHexPrefix JS.parseDigits];
      by rewrite ?Hd. }
  assert (Hrm : JS.removeFirst "#" (String c rest) =
                String c (JS.removeFirst "#" rest)).
  { cbn [JS.removeFirst]. destruct (Ascii.eqb_spec c "#"); [done | reflexivity]. }
  split; [|split; [|split; reflexivity]].
  - unfold hexToRgba. by rewrite Hrm, Hparse.
  - unfold hexToRgba. change (JS.removeFirst "#" (String "#" ?s)) with s.
    by rewrite Hparse.
Qed.

Lemma hexToRgba_unparsable_witness :
  hexToRgba "red" = (0, 0, 0, 255) /\
  hexToRgba "#red" = (0, 0, 0, 255) /\
  hexToRgba "" = (0, 0, 0, 255) /\
  hexToRgba "#" = (0, 0, 0, 255).
Proof.
  apply (hexToRgba_unparsable "r" "ed"); [reflexivity | reflexivity | | |];
    discriminate.
Defined.

(** X3. The short text [#RGB] is not widened to [#RRGGBB]: its three digits
    are read as one number, so that red is 0, green is the first digit and
    blue is the last two. *)
Theorem hexToRgba_short_text (upper : bool) (r g b : Z) :
  0 <= r < 16 -> 0 <= g < 16 -> 0 <= b < 16 ->
  hexToRgba (hexShort upper r g b) = (0, r, g * 16 + b, 255).
Proof.
  intros Hr Hg Hb. unfold hexToRgba.
  rewrite parseInt16_hexShort by assumption.
  destruct (channels_of_uint32 (r * 256 + g * 16 + b)) as (-> & -> & ->); [lia|].
  repeat f_equal; zlia.
Qed.

Lemma hexToRgba_short_text_witness :
  hexToRgba (hexShort false 15 15 15) = (0, 15, 255, 255).
Proof. apply (hexToRgba_short_text false 15 15 15); lia. Defined.

(** X4. Of the text [#RRGGBBAA] the last six digits are the colour: the
    result is (G, B, A, 255), the first two digits are lost and no alpha is
    taken from the text. *)
Theorem hexToRgba_alpha_text (upper : bool) (R G B A : Z) :
  0 <= R <= 255 -> 0 <= G <= 255 -> 0 <= B <= 255 -> 0 <= A <= 255 ->
  hexToRgba (hexColorAlpha upper R G B A) = (G, B, A, 255).
Proof.
  intros HR HG HB HA. unfold hexToRgba.
  rewrite parseInt16_hexColorAlpha by assumption.
  destruct (channels_of_uint32 (R * 16777216 + G * 65536 + B * 256 + A))
    as (-> & -> & ->); [lia|].
  repeat f_equal; zlia.
Qed.

Lemma hexToRgba_alpha_text_witness :
  hexToRgba (hexColorAlpha true 255 0 0 128) = (0, 0, 128, 255).
Proof. apply (hexToRgba_alpha_text true 255 0 0 128); lia. Defined.

(** ** More on the undo history *)

Section HistoryMore.

Implicit Types (h : HistoryState) (img : string).

Lemma invariant_cursor h : historyInvariant h -> -1 <= currentIndex h.
Proof.
  intros (Hidx & Hempty & _).
  destruct (decide (history h = [])) as [E|E];
    [apply Hempty in E | specialize (Hidx E)]; lia.
Qed.

Lemma invariant_nonempty h :
  historyInvariant h -> history h <> [] ->
  0 <= currentIndex h < Z.of_nat (length (history h)) /\
  Z.of_nat (length (history h)) <= 20.
Proof. intros (Hidx & _ & Hcap) Hne. split; [by apply Hidx | exact Hcap]. Qed.

Lemma length_kept h :
  0 <= currentIndex h < Z.of_nat (length (history h)) ->
  length (take (Z.to_nat (currentIndex h + 1)) (history h)) =
  Z.to_nat (currentIndex h + 1).
Proof. intros Hc. rewrite length_take. lia. Qed.

Lemma record_keeps_invariant img h :
  historyInvariant h -> historyInvariant (record img h).
Proof.
  intros Hinv. assert (Hc := invariant_cursor h Hinv).
  destruct Hinv as (Hidx & Hempty & Hcap).
  assert (Hk : (length (take (Z.to_nat (currentIndex h + 1)) (history h))
                <= length (history h))%nat) by (rewrite length_take; lia).
  rewrite record_unfold by assumption. cbn zeta.
  set (kept := take _ _) in *. unfold maxHistorySize in *.
  destruct (Z.ltb_spec 20 (Z.of_nat (length (kept ++ [img]))));
    unfold historyInvariant, maxHistorySize; cbn [history currentIndex];
    rewrite ?length_drop, length_app in *; cbn [length] in *.
  - split; [intros _; lia|]. split; [|lia].
    split; [lia|]. intros E%(f_equal length).
    rewrite length_drop, length_app in E. cbn [length] in E. lia.
  - split; [intros _; lia|]. split; [|lia].
    split; [lia|]. intros E%(f_equal length).
    rewrite length_app in E. cbn [length] in E. lia.
Qed.

Lemma undoTimes_succ n h :
  0 < currentIndex h ->
  undoTimes (S n) h =
  ((undoTimes n {| history := history h; currentIndex := currentIndex h - 1 |}).1,
   JS.index (history h) (currentIndex h - 1) ::
   (undoTimes n {| history := history h; currentIndex := currentIndex h - 1 |}).2).
Proof.
  intros Hc. cbn [undoTimes]. unfold undo.
  destruct (Z.ltb_spec 0 (currentIndex h)); [|lia].
  by destruct (undoTimes n _).
Qed.

End HistoryMore.



(** From a cursor that is not negative, [n] times [undo], each on the state
    the one before has left, leave the entries as they are and the cursor [n]
    lower, but not below 0; they ask for as many restores as the cursor went
    down, those of the entries below the first cursor, from the nearest
    down. *)
Lemma undoTimes_cursor (n : nat) (h : HistoryState) :
  0 <= currentIndex h ->
  (undoTimes n h).1 =
    {| history := history h;
       currentIndex := Z.max 0 (currentIndex h - Z.of_nat n) |} /\
  (undoTimes n h).2 =
    (fun k : nat => JS.index (history h) (currentIndex h - 1 - Z.of_nat k)) <$>
      seq 0 (Nat.min n (Z.to_nat (currentIndex h))).
Proof.
  revert h. induction n as [|n IH]; intros [l c] Hc; cbn [history currentIndex] in *.
  { cbn. split; [f_equal; lia | done]. }
  destruct (decide (c = 0)) as [->|Hpos].
  { rewrite undoTimes_at_zero by (cbn; lia). cbn [fst snd].
    split; [f_equal; lia|]. by rewrite Nat.min_0_r. }
  rewrite undoTimes_succ by (cbn; lia). cbn [fst snd history currentIndex].
  destruct (IH {| history := l; currentIndex := c - 1 |}) as [-> ->];
    [cbn; lia|]. cbn [history currentIndex].
  split; [f_equal; lia|].
  replace (Nat.min (S n) (Z.to_nat c)) with (S (Nat.min n (Z.to_nat (c - 1)))) by lia.
  cbn [seq fmap list_fmap]. f_equal; [f_equal; lia|].
  rewrite <- fmap_S_seq, <- list_fmap_compose.
  apply list_fmap_ext. intros _ k _. cbn. f_equal. lia.
Qed.

(** Whatever the number of snapshots recorded after the seeding, the
    entries are the last 20 of the blank snapshot followed by the recorded
    ones, the cursor on the last. With fewer than 20 recorded nothing is
    lost, and as many times [undo] as there were records, each on the state
    the one before has left, end by asking for the blank snapshot; with 20 or
    more the blank snapshot is gone. *)
Lemma recordAll_from_seed (blank : string) (imgs : list string) :
  let h := recordAll imgs (seedHistory true (Some blank) initialHistoryState) in
  let all := blank :: imgs in
  history h = drop (length all - 20) all /\
  currentIndex h = Z.of_nat (Nat.min (length all) 20) - 1 /\
  ((length imgs < 20)%nat ->
     history h = blank :: imgs /\
     (imgs <> [] ->
      last (undoTimes (length imgs) h).2 = Some (Some blank)) /\
     currentIndex (undoTimes (length imgs) h).1 = 0) /\
  ((20 <= length imgs)%nat -> history h = drop (length imgs - 20) imgs).
Proof.
  intros h all.
  assert (Hh : h = {| history := drop (length all - 20) all;
                      currentIndex := Z.of_nat (Nat.min (length all) 20) - 1 |}).
  { subst h all. cbn [seedHistory].
    change 0 with (Z.of_nat (length [blank]) - 1).
    rewrite recordAll_at_end by (unfold maxHistorySize; simpl; done || lia).
    change ([blank] ++ imgs) with (blank :: imgs).
    f_equal. rewrite length_drop. lia. }
  rewrite Hh. cbn [history currentIndex]. split; [done|]. split; [done|].
  subst all. cbn [length]. split.
  - intros Hlt.
    replace (S (length imgs) - 20)%nat with 0%nat by lia. cbn [drop].
    split; [done|].
    replace (Z.of_nat (Nat.min (S (length imgs)) 20) - 1)
      with (Z.of_nat (length imgs)) by lia.
    destruct (undoTimes_cursor (length imgs)
                {| history := blank :: imgs;
                   currentIndex := Z.of_nat (length imgs) |}) as [E1 E2];
      [cbn; lia|].
    rewrite E1, E2. cbn [history currentIndex]. split; [|lia].
    intros Hne. assert (0 < length imgs)%nat by (destruct imgs; [done | simpl; lia]).
    rewrite Nat2Z.id, Nat.min_id.
    destruct (length imgs) as [|m]; [lia|].
    rewrite seq_S, fmap_app, list_fmap_singleton, last_snoc. f_equal.
    replace (Z.of_nat (S m) - 1 - Z.of_nat (0 + m)) with 0 by lia.
    reflexivity.
  - intros Hge.
    replace (S (length imgs) - 20)%nat with (S (length imgs - 20)) by lia.
    reflexivity.
Qed.



(** X9. On a history that has entries and keeps the invariant, [record]
    drops the oldest entry exactly when the cursor is on the twentieth entry:
    then the entries are the old ones but the first, with the new one at the
    end; below that index the first entry stays the first. *)
Theorem record_evicts_only_when_full (img : string) (h : HistoryState) :
  historyInvariant h -> history h <> [] ->
  (currentIndex h = 19 ->
     history (record img h) = drop 1 (history h) ++ [img]) /\
  (currentIndex h < 19 ->
     history (record img h) !! 0%nat = history h !! 0%nat /\
     history (record img h) =
       take (Z.to_nat (currentIndex h + 1)) (history h) ++ [img]).
Proof.
  intros Hinv Hne.
  destruct (invariant_nonempty h Hinv Hne) as [Hc Hcap].
  assert (Hk := length_kept h Hc).
  rewrite record_unfold by lia. cbn zeta.
  rewrite length_app, Hk. cbn [length]. unfold maxHistorySize.
  split; intros Hcur.
  - destruct (Z.ltb_spec 20 (Z.of_nat (Z.to_nat (currentIndex h + 1) + 1))); [|lia].
    cbn [history]. rewrite take_ge by lia.
    destruct (history h); [done | reflexivity].
  - destruct (Z.ltb_spec 20 (Z.of_nat (Z.to_nat (currentIndex h + 1) + 1))); [lia|].
    cbn [history]. split; [|done].
    rewrite lookup_app_l by lia. apply lookup_take_lt. lia.
Qed.

Lemma record_evicts_only_when_full_witness :
  history (record "x" (mkHistoryState ["a"; "b"; "c"; "d"]%string 1)) !! 0%nat =
    Some "a"%string /\
  history (record "x" (mkHistoryState ["a"; "b"; "c"; "d"]%string 1)) =
    ["a"; "b"; "x"]%string.
Proof.
  destruct (record_evicts_only_when_full "x"
              (mkHistoryState ["a"; "b"; "c"; "d"]%string 1)) as [_ Hlow].
  - unfold historyInvariant, maxHistorySize. cbn. split; [intros _; lia|].
    split; [|lia]. split; [lia | done].
  - done.
  - apply Hlow. cbn. lia.
Defined.

(** ** More on the flood fill *)

Section FloodMore.

Implicit Types (ctx : Context2D) (data : list Z) (p q : Z * Z) (c : RGBA).

Lemma floodLoop_floor fuel width height t c x y x' y' stack data :
  Qfloor x = Qfloor x' -> Qfloor y = Qfloor y' ->
  floodLoop fuel width height t c ((x, y) :: stack) data =
  floodLoop fuel width height t c ((x', y') :: stack) data.
Proof. intros Hx Hy. destruct fuel; [done|]. cbn [floodLoop]. by rewrite Hx, Hy. Qed.

Lemma clamp8_isByte v : isByte (JS.clamp8 v).
Proof. unfold isByte, JS.clamp8. lia. Qed.

Lemma store_isByte data idx v :
  Forall isByte data -> Forall isByte (JS.store data idx v).
Proof.
  intros H. unfold JS.store. destruct (idx <? 0); [done|].
  apply Forall_insert; [done | apply clamp8_isByte].
Qed.

Lemma fillPixel_isByte data c idx :
  Forall isByte data -> Forall isByte (fillPixel data c idx).
Proof.
  intros H. destruct c as [[[r g] b] a]. unfold fillPixel.
  by do 4 apply store_isByte.
Qed.

Lemma applyFills_isByte width c filled data :
  Forall isByte data -> Forall isByte (applyFills width c filled data).
Proof.
  intros H. induction filled as [|p filled IH]; [done|].
  rewrite applyFills_cons. by apply fillPixel_isByte.
Qed.

(** The loop with the height of the stack computes what the loop computes. *)
Lemma floodLoopPeak_erase fuel width height t c stack data peak :
  floodLoop fuel width height t c stack data =
  fst <$> floodLoopPeak fuel width height t c stack data peak.
Proof.
  revert stack data peak. induction fuel as [|fuel IH]; [done|].
  intros [|[x y] stack] data peak; [done|]. cbn [floodLoop floodLoopPeak].
  destruct (outOfBounds _ _ _ _); [apply IH|].
  destruct (fillTest _ _ _ _); apply IH.
Qed.

Lemma floodFillPeak_erase fuel ctx startX startY fillHex :
  floodFill fuel ctx startX startY fillHex =
  fst <$> floodFillPeak fuel ctx startX startY fillHex.
Proof.
  unfold floodFill, floodFillPeak. destruct (sameColor _ _); [done|].
  rewrite (floodLoopPeak_erase _ _ _ _ _ _ _ 0%nat).
  by destruct (floodLoopPeak _ _ _ _ _ _ _ _) as [[d pk]|].
Qed.

(** The stack grows by three at a fill, and a fill takes a pixel away from
    those of the target colour. *)
Lemma floodLoopPeak_bound ctx0 target fill fuel stack data peak data' peak' :
  wellFormed ctx0 -> clampColor fill = fill -> target <> opaque fill ->
  Z.of_nat (length data) = 4 * canvas_width ctx0 * canvas_height ctx0 ->
  floodLoopPeak fuel (canvas_width ctx0) (canvas_height ctx0) target fill
    stack data peak = Some (data', peak') ->
  (peak' <= Nat.max peak
              (length stack +
               3 * targetCount (canvas_width ctx0) (canvas_height ctx0) target data))%nat.
Proof.
  intros Hwf Hbytes Hdiff. revert stack data peak.
  induction fuel as [|fuel IH]; [done|].
  intros [|[x y] stack] data peak Hlen; cbn [floodLoopPeak].
  { intros [= <- <-]. cbn [length]. lia. }
  cbn [length].
  destruct (outOfBounds _ _ _ _) eqn:Hob.
  { intros Hrun%IH; [lia | done]. }
  apply outOfBounds_false in Hob.
  destruct (fillTest _ _ _ _) eqn:Hft; cycle 1.
  { intros Hrun%IH; [lia | done]. }
  apply fillTest_true in Hft as [Ht _].
  assert (Hcount := count_fillPixel ctx0 target fill Hwf Hbytes Hdiff
                      data (Qfloor x, Qfloor y) Hlen Hob Ht).
  intros Hrun%IH; [|by rewrite length_fillPixel].
  cbn [pushNeighbors length] in Hrun.
  change ((Qfloor y * canvas_width ctx0 + Qfloor x) * 4)
    with (offset (canvas_width ctx0) (Qfloor x, Qfloor y)) in Hrun.
  lia.
Qed.

(** The pixels a path leads to are still joined by a path once they are all
    of the fill colour. *)
Lemma connected_after_fill ctx ctx1 target c seed p :
  canvas_width ctx1 = canvas_width ctx ->
  canvas_height ctx1 = canvas_height ctx ->
  (forall q, connected ctx target seed q -> pixel ctx1 q = opaque c) ->
  connected ctx target seed p -> connected ctx1 (opaque c) seed p.
Proof.
  intros Hw Hh Hfilled. induction 1 as [Hs Hst|p q Hc IH Hpq Hq Hqt].
  - constructor.
    + unfold inBounds in *. by rewrite Hw, Hh.
    + apply Hfilled. by constructor.
  - apply (connected_step _ _ _ p); [done..| |].
    + unfold inBounds in *. by rewrite Hw, Hh.
    + apply Hfilled. by apply (connected_step _ _ _ p).
Qed.

Lemma opaque_inj c c' : opaque c = opaque c' -> c = c'.
Proof.
  destruct c as [[[r g] b] a], c' as [[[r' g'] b'] a']. cbn. congruence.
Qed.

End FloodMore.

(** X10. [floodFill] takes the seed through [Math.floor] only: two seeds in
    the same pixel give the same result, for every canvas and fuel. *)
Theorem floodFill_seed_pixel (fuel : nat) (ctx : Context2D)
    (startX startY startX' startY' : Q) (fillHex : string) :
  pixelOf startX startY = pixelOf startX' startY' ->
  floodFill fuel ctx startX startY fillHex =
  floodFill fuel ctx startX' startY' fillHex.
Proof.
  unfold pixelOf. intros [= Hx Hy]. unfold floodFill.
  rewrite Hx, Hy. destruct (sameColor _ _); [done|].
  by rewrite (floodLoop_floor _ _ _ _ _ startX startY startX' startY').
Qed.

Lemma floodFill_seed_pixel_witness :
  floodFill 18 sampleCanvas (1 # 2) (1 # 2) "#FF0000" =
  floodFill 18 sampleCanvas (3 # 4) 0 "#FF0000".
Proof.
  apply (floodFill_seed_pixel 18 sampleCanvas (1 # 2) (1 # 2) (3 # 4) 0).
  reflexivity.
Defined.

(** X11. Whenever [floodFill] returns, the canvas has the size it had and a
    buffer of the same length; bytes stay bytes, and a well-formed canvas
    stays well formed. *)
Theorem floodFill_keeps_shape (fuel : nat) (ctx ctx' : Context2D)
    (startX startY : Q) (fillHex : string) :
  floodFill fuel ctx startX startY fillHex = Some ctx' ->
  canvas_width ctx' = canvas_width ctx /\
  canvas_height ctx' = canvas_height ctx /\
  length (surface ctx') = length (surface ctx) /\
  (Forall isByte (surface ctx) -> Forall isByte (surface ctx')) /\
  (wellFormed ctx -> wellFormed ctx').
Proof.
  rewrite floodFill_erase.
  destruct (floodFillLog fuel ctx startX startY fillHex) as [log|] eqn:Hlog;
    [|done].
  intros [= <-]. apply floodFillLog_writes in Hlog as [_ Hdata].
  unfold wellFormed.
  cbn [putImageData canvas_width canvas_height surface]. rewrite Hdata.
  split; [done|]. split; [done|]. split; [apply length_applyFills|].
  split; [apply applyFills_isByte|].
  by rewrite length_applyFills.
Qed.

Lemma floodFill_keeps_shape_witness :
  exists ctx',
    floodFill 18 sampleCanvas (1 # 2) (1 # 2) "#FF0000" = Some ctx' /\
    canvas_width ctx' = 2 /\ canvas_height ctx' = 2 /\
    length (surface ctx') = 16%nat /\
    (Forall isByte (surface sampleCanvas) -> Forall isByte (surface ctx')) /\
    (wellFormed sampleCanvas -> wellFormed ctx').
Proof.
  eexists. split; [reflexivity|].
  apply (floodFill_keeps_shape 18 sampleCanvas _ (1 # 2) (1 # 2) "#FF0000").
  reflexivity.
Defined.

(** On a well-formed canvas, for a finite seed, the stack of [floodFill]
    never holds more than three entries for each pixel of the canvas, and
    one. *)
Lemma floodFill_stack_height (fuel : nat) (ctx : Context2D)
    (startX startY : Q) (fillHex : string) :
  wellFormed ctx -> (enoughFuel ctx <= fuel)%nat ->
  exists ctx' peak,
    floodFillPeak fuel ctx startX startY fillHex = Some (ctx', peak) /\
    floodFill fuel ctx startX startY fillHex = Some ctx' /\
    (peak <= 3 * Z.to_nat (canvas_width ctx * canvas_height ctx) + 1)%nat.
Proof.
  intros Hwf Hfuel.
  assert (Herase := floodFillPeak_erase fuel ctx startX startY fillHex).
  destruct (decide (pixel ctx (pixelOf startX startY) = opaque (hexToRgba fillHex)))
    as [Heq|Hdiff].
  { exists ctx, 0%nat. apply sameColor_true in Heq.
    unfold floodFill, floodFillPeak.
    change (readColor _ _) with (pixel ctx (pixelOf startX startY)).
    rewrite Heq. split; [done|]. split; [done | lia]. }
  destruct (floodFill_run fuel ctx startX startY fillHex Hwf Hdiff Hfuel)
    as (log & _ & Hrun & _).
  rewrite Hrun in Herase.
  destruct (floodFillPeak fuel ctx startX startY fillHex) as [[ctx' peak]|] eqn:Hpeak;
    [|done].
  injection Herase as <-. exists (putImageData ctx (log_data log)), peak.
  split; [done|]. split; [done|].
  unfold floodFillPeak in Hpeak.
  change (readColor _ _) with (pixel ctx (pixelOf startX startY)) in Hpeak.
  destruct (sameColor _ _) eqn:Hsame;
    [by apply sameColor_true in Hsame|].
  destruct (floodLoopPeak _ _ _ _ _ _ _ _) as [[data' peak']|] eqn:Hloop; [|done].
  injection Hpeak as _ <-.
  apply (floodLoopPeak_bound ctx) in Hloop;
    [|done | apply clampColor_hexToRgba | done | by destruct Hwf as (_ & _ & ?)].
  assert (Hcount := count_bound ctx (pixel ctx (pixelOf startX startY)) (surface ctx)).
  cbn [length] in Hloop. unfold getImageData in Hloop. lia.
Qed.

Example floodFillPeak_uniform :
  snd <$> floodFillPeak 402 (uniformCanvas 10 10 (255, 255, 255, 255)) 0 0 "#FF0000"
  = Some 229%nat.
Proof. by vm_compute. Qed.

(** X13. A second fill, from the same seed and with another colour, takes
    the whole region of the first fill: on a well-formed canvas, every pixel
    a path led to before the first fill has the second colour in the end. *)
Theorem floodFill_refill (fuel : nat) (ctx : Context2D) (startX startY : Q)
    (fillHex fillHex' : string) :
  let seed := pixelOf startX startY in
  let target := pixel ctx seed in
  wellFormed ctx -> inBounds ctx seed ->
  target <> opaque (hexToRgba fillHex) ->
  hexToRgba fillHex <> hexToRgba fillHex' ->
  (enoughFuel ctx <= fuel)%nat ->
  exists ctx1 ctx2,
    floodFill fuel ctx startX startY fillHex = Some ctx1 /\
    floodFill fuel ctx1 startX startY fillHex' = Some ctx2 /\
    forall p, connected ctx target seed p ->
      pixel ctx1 p = opaque (hexToRgba fillHex) /\
      pixel ctx2 p = opaque (hexToRgba fillHex').
Proof.
  intros seed target Hwf Hseed Hdiff Hcolours Hfuel.
  destruct (floodFill_run fuel ctx startX startY fillHex Hwf Hdiff Hfuel)
    as (log & _ & Hrun & _ & _ & _ & _ & Hinv).
  set (ctx1 := putImageData ctx (log_data log)) in *.
  assert (Hfilled : forall q, connected ctx target seed q ->
            pixel ctx1 q = opaque (hexToRgba fillHex)).
  { intros q Hq. destruct (connected_target _ _ _ _ Hq) as [Hin _].
    by apply (invariant_end ctx target (hexToRgba fillHex) seed _ q Hinv Hin). }
  assert (Hwf1 : wellFormed ctx1).
  { destruct Hwf as (Hw & Hh & Hlen). destruct Hinv as [Hlen1 _].
    unfold wellFormed, ctx1. cbn [putImageData canvas_width canvas_height surface].
    by rewrite Hlen1. }
  assert (Hseed1 : pixel ctx1 seed = opaque (hexToRgba fillHex))
    by (apply Hfilled; by constructor).
  assert (Hdiff1 : pixel ctx1 (pixelOf startX startY) <> opaque (hexToRgba fillHex')).
  { fold seed. rewrite Hseed1. by intros E%opaque_inj. }
  destruct (floodFill_run fuel ctx1 startX startY fillHex' Hwf1 Hdiff1 Hfuel)
    as (log' & _ & Hrun' & _ & _ & _ & _ & Hinv').
  exists ctx1, (putImageData ctx1 (log_data log')).
  split; [exact Hrun|]. split; [exact Hrun'|].
  intros p Hp. split; [by apply Hfilled|].
  destruct (connected_target _ _ _ _ Hp) as [Hin _].
  apply (invariant_end ctx1 _ (hexToRgba fillHex') seed _ p Hinv' Hin).
  fold seed. rewrite Hseed1.
  by apply (connected_after_fill ctx ctx1 target).
Qed.

Lemma floodFill_refill_witness :
  exists ctx1 ctx2,
    floodFill 18 sampleCanvas (1 # 2) (1 # 2) "#FF0000" = Some ctx1 /\
    floodFill 18 ctx1 (1 # 2) (1 # 2) "#00FF00" = Some ctx2 /\
    forall p,
      connected sampleCanvas (pixel sampleCanvas (pixelOf (1 # 2) (1 # 2)))
        (pixelOf (1 # 2) (1 # 2)) p ->
      pixel ctx1 p = opaque (hexToRgba "#FF0000") /\
      pixel ctx2 p = opaque (hexToRgba "#00FF00").
Proof.
  apply (floodFill_refill 18 sampleCanvas (1 # 2) (1 # 2) "#FF0000" "#00FF00").
  - unfold wellFormed. cbn. lia.
  - change (inGrid 2 2 (0, 0)). unfold inGrid. cbn. lia.
  - discriminate.
  - discriminate.
  - unfold enoughFuel. cbn. lia.
Defined.

(** X14. The fill does not leak: on a well-formed canvas, with the seed on
    the grid and not of the fill colour, a pixel that has changed had the
    seed's colour, and it is the seed or has a neighbour, above, below, left
    or right, that had the seed's colour and has changed as well. *)
Theorem floodFill_changes_by_neighbours (fuel : nat) (ctx : Context2D)
    (startX startY : Q) (fillHex : string) :
  let seed := pixelOf startX startY in
  let target := pixel ctx seed in
  wellFormed ctx -> inBounds ctx seed ->
  target <> opaque (hexToRgba fillHex) -> (enoughFuel ctx <= fuel)%nat ->
  exists ctx',
    floodFill fuel ctx startX startY fillHex = Some ctx' /\
    forall p, inBounds ctx p -> pixel ctx' p <> pixel ctx p ->
      pixel ctx p = target /\
      pixel ctx' p = opaque (hexToRgba fillHex) /\
      (p = seed \/
       exists q, adjacent4 q p /\ inBounds ctx q /\ pixel ctx q = target /\
                 pixel ctx' q = opaque (hexToRgba fillHex)).
Proof.
  intros seed target Hwf Hseed Hdiff Hfuel.
  destruct (floodFill_run fuel ctx startX startY fillHex Hwf Hdiff Hfuel)
    as (log & _ & Hrun & _ & _ & _ & _ & Hinv).
  exists (putImageData ctx (log_data log)). split; [exact Hrun|].
  assert (Hend := fun p => invariant_end ctx target (hexToRgba fillHex) seed _ p Hinv).
  intros p Hp Hchanged.
  assert (Hc : connected ctx target seed p).
  { destruct Hinv as (_ & Hpix & _). by destruct (Hpix p Hp) as [?|[_ ?]]. }
  split; [by apply (connected_target ctx target seed)|].
  split; [by apply Hend|].
  destruct Hc as [|p' q Hc' Hadj Hq Hqt]; [by left|]. right.
  destruct (connected_target _ _ _ _ Hc') as [Hin' Hpt'].
  exists p'. split; [done|]. split; [done|]. split; [done|]. by apply Hend.
Qed.

Lemma floodFill_changes_by_neighbours_witness :
  exists ctx',
    floodFill 18 sampleCanvas (1 # 2) (1 # 2) "#FF0000" = Some ctx' /\
    forall p, inBounds sampleCanvas p -> pixel ctx' p <> pixel sampleCanvas p ->
      pixel sampleCanvas p = pixel sampleCanvas (pixelOf (1 # 2) (1 # 2)) /\
      pixel ctx' p = opaque (hexToRgba "#FF0000") /\
      (p = pixelOf (1 # 2) (1 # 2) \/
       exists q, adjacent4 q p /\ inBounds sampleCanvas q /\
                 pixel sampleCanvas q = pixel sampleCanvas (pixelOf (1 # 2) (1 # 2)) /\
                 pixel ctx' q = opaque (hexToRgba "#FF0000")).
Proof.
  apply (floodFill_changes_by_neighbours 18 sampleCanvas (1 # 2) (1 # 2) "#FF0000").
  - unfold wellFormed. cbn. lia.
  - change (inGrid 2 2 (0, 0)). unfold inGrid. cbn. lia.
  - discriminate.
  - unfold enoughFuel. cbn. lia.
Defined.

(** ** The pointer handlers *)

Section Gestures.

Implicit Types (c : Component) (i : Input) (inputs : list Input).

Lemma handleAll_cons i inputs c :
  handleAll (i :: inputs) c = handleAll inputs (handle i c).
Proof. reflexivity. Qed.

Lemma handle_invariant i c :
  historyInvariant (historyState c) -> historyInvariant (historyState (handle i c)).
Proof.
  intros Hinv. unfold handle, startDrawing, stopDrawing.
  destruct (input_event i); try done;
    destruct (canvasContext c); cbn [negb]; try done;
    repeat (match goal with |- context [if ?b then _ else _] => destruct b end);
    try done; cbn [historyState saveCanvasState]; by apply record_keeps_invariant.
Qed.

End Gestures.

(** X17. The pointer handlers keep the invariant of the history, whatever
    the events and the tools. *)
Theorem handlers_keep_invariant (inputs : list Input) (c : Component) :
  historyInvariant (historyState c) ->
  historyInvariant (historyState (handleAll inputs c)).
Proof.
  revert c. induction inputs as [|i inputs IH]; intros c Hinv; [done|].
  rewrite handleAll_cons. by apply IH, handle_invariant.
Qed.

Lemma handlers_keep_invariant_witness :
  historyInvariant (historyState (handleAll (sampleGesture "brush") sampleComponent)).
Proof.
  apply (handlers_keep_invariant (sampleGesture "brush") sampleComponent).
  unfold historyInvariant, maxHistorySize. cbn. split; [intros _; lia|].
  split; [|lia]. split; [lia | done].
Defined.

(** X18. Without the 2D context no event does anything: no gesture starts
    and nothing is recorded. *)
Theorem handlers_need_context (inputs : list Input) (c : Component) :
  canvasContext c = false -> handleAll inputs c = c.
Proof.
  intros Hctx. induction inputs as [|i inputs IH]; [done|].
  rewrite handleAll_cons. replace (handle i c) with c; [done|].
  unfold handle, startDrawing, stopDrawing. rewrite Hctx.
  by destruct (input_event i).
Qed.

Lemma handlers_need_context_witness :
  handleAll (sampleGesture "fill") (mkComponent false false None initialHistoryState) =
  mkComponent false false None initialHistoryState.
Proof.
  by apply (handlers_need_context (sampleGesture "fill")
              (mkComponent false false None initialHistoryState)).
Defined.

(** * The calls that do not return *)

(** ** [floodFill] on every number and every canvas *)

Section FloodFillJS.

Implicit Types (ctx : Context2D) (data : list Z) (x y : Number) (c : RGBA).

Lemma fillTestAt_int data t c z : fillTestAt data t c (IInt z) = fillTest data t c z.
Proof. by destruct t as [[[t0 t1] t2] t3]. Qed.

Lemma fillPixelAt_int data c z : fillPixelAt data c (IInt z) = fillPixel data c z.
Proof. by destruct c as [[[r g] b] a]. Qed.

Lemma pushNeighborsAt_int xi yi (stack : list (Q * Q)) :
  pushNeighborsAt (IInt xi) (IInt yi) (real <$> stack) =
  real <$> pushNeighbors xi yi stack.
Proof. reflexivity. Qed.

(** On finite points the loop is the loop on rationals, turn by turn. *)
Lemma floodLoopJS_real fuel width height t c (stack : list (Q * Q)) data peak :
  floodLoopJS fuel width height t c (real <$> stack) data peak =
  floodLoopPeak fuel width height t c stack data peak.
Proof.
  revert stack data peak. induction fuel as [|fuel IH]; [done|].
  intros [|[qx qy] stack] data peak; [done|].
  cbn [floodLoopJS floodLoopPeak fmap list_fmap real fst snd Num.floor length].
  rewrite length_fmap.
  change (outOfBoundsAt width height (IInt (Qfloor qx)) (IInt (Qfloor qy)))
    with (outOfBounds width height (Qfloor qx) (Qfloor qy)).
  destruct (outOfBounds _ _ _ _); [apply IH|].
  change (Num.mulZ (Num.add (Num.mulZ (IInt (Qfloor qy)) width) (IInt (Qfloor qx))) 4)
    with (IInt ((Qfloor qy * width + Qfloor qx) * 4)).
  rewrite fillTestAt_int, fillPixelAt_int.
  destruct (fillTest _ _ _ _); [|apply IH].
  rewrite pushNeighborsAt_int. apply IH.
Qed.

Lemma getImageDataJS_some ctx :
  canvas_width ctx <> 0 -> canvas_height ctx <> 0 ->
  getImageDataJS ctx = Some (surface ctx).
Proof.
  intros Hw Hh. unfold getImageDataJS.
  destruct (Z.eqb_spec (canvas_width ctx) 0); [done|].
  by destruct (Z.eqb_spec (canvas_height ctx) 0).
Qed.

Lemma getImageDataJS_none ctx :
  canvas_width ctx = 0 \/ canvas_height ctx = 0 -> getImageDataJS ctx = None.
Proof.
  intros H. unfold getImageDataJS.
  destruct (Z.eqb_spec (canvas_width ctx) 0); [done|].
  destruct (Z.eqb_spec (canvas_height ctx) 0); [done | lia].
Qed.

(** On a canvas that is not empty and a finite seed, [floodFillJS] is
    [floodFill]. *)
Lemma floodFillJS_real fuel ctx (qx qy : Q) fillHex :
  canvas_width ctx <> 0 -> canvas_height ctx <> 0 ->
  floodFillJS fuel ctx (Real qx) (Real qy) fillHex =
  match floodFillPeak fuel ctx qx qy fillHex with
  | Some r => Returned r
  | None => OutOfFuel
  end.
Proof.
  intros Hw Hh. unfold floodFillJS, floodFillPeak.
  rewrite getImageDataJS_some by done. unfold getImageData.
  cbn [Num.floor].
  change (readColorAt (surface ctx) _)
    with (readColor (surface ctx)
            ((Qfloor qy * canvas_width ctx + Qfloor qx) * 4)).
  destruct (sameColor _ _); [done|].
  change [(Real qx, Real qy)] with (real <$> [(qx, qy)]).
  rewrite floodLoopJS_real.
  by destruct (floodLoopPeak _ _ _ _ _ _ _ _) as [[d pk]|].
Qed.

Lemma floodFillJS_empty fuel ctx x y fillHex :
  canvas_width ctx = 0 \/ canvas_height ctx = 0 ->
  floodFillJS fuel ctx x y fillHex = Threw (ctx, 0%nat).
Proof. intros H. unfold floodFillJS. by rewrite getImageDataJS_none. Qed.

Lemma add_INaN_r (a : Integral) : Num.add a INaN = INaN.
Proof. by destruct a. Qed.

(** The index of a pixel with a coordinate that is [NaN] is [NaN]. *)
Lemma index_of_NaN width (xi yi : Integral) :
  isNaN xi || isNaN yi = true ->
  Num.mulZ (Num.add (Num.mulZ yi width) xi) 4 = INaN.
Proof.
  intros H. destruct xi as [|s|z]; [by rewrite add_INaN_r | |];
    destruct yi as [|s'|z']; done.
Qed.

(** At the index [NaN] every read is [undefined] and every store is lost:
    the test of the fill holds when the target is [undefined] four times. *)
Lemma fillTestAt_NaN data c :
  fillTestAt data (None, None, None, None) c INaN = true.
Proof. by destruct c as [[[r g] b] a]. Qed.

Lemma sameColor_undefined c : sameColor (None, None, None, None) c = false.
Proof. by destruct c as [[[r g] b] a]. Qed.

(** With the target [undefined] four times, a stack that holds a point
    which passes the bounds test with a coordinate [NaN] is never empty
    again: such a point pushes another one. *)
Lemma floodLoopJS_never_returns fuel width height c
    (stack : list (Number * Number)) data peak :
  (exists x y, (x, y) ∈ stack /\ passesAsNaN width height x y = true) ->
  floodLoopJS fuel width height (None, None, None, None) c stack data peak = None.
Proof.
  revert stack data peak. induction fuel as [|fuel IH]; [done|].
  intros [|[x y] stack] data peak (x0 & y0 & Hin & Hlive).
  { by apply elem_of_nil in Hin. }
  cbn [floodLoopJS].
  destruct (outOfBoundsAt width height (Num.floor x) (Num.floor y)) eqn:Hob.
  { apply IH. exists x0, y0. split; [|done].
    apply elem_of_cons in Hin as [[= -> ->]|Hin]; [|done].
    unfold passesAsNaN in Hlive. by rewrite Hob in Hlive. }
  apply elem_of_cons in Hin as [[= -> ->]|Hrest].
  - unfold passesAsNaN in Hlive. rewrite Hob in Hlive. cbn [negb andb] in Hlive.
    rewrite (index_of_NaN _ _ _ Hlive), fillTestAt_NaN.
    apply IH. unfold outOfBoundsAt in Hob.
    apply orb_false_iff in Hob as [Hob Hy2].
    apply orb_false_iff in Hob as [Hob Hy1].
    apply orb_false_iff in Hob as [Hx1 Hx2].
    destruct (Num.floor x) as [|sx|zx] eqn:Ex.
    + exists (Num.ofIntegral (Num.addZ INaN 1)), (Num.ofIntegral (Num.floor y)).
      split; [unfold pushNeighborsAt; rewrite !elem_of_cons; auto 6|].
      unfold passesAsNaN, outOfBoundsAt. cbn [Num.addZ Num.add Num.ofIntegral Num.floor].
      destruct (Num.floor y) as [|sy|zy]; cbn in *; try done.
      * by destruct sy.
      * by rewrite Z.div_1_r, Hy1, Hy2.
    + cbn in Hx1, Hx2. by destruct sx.
    + cbn [isNaN orb] in Hlive. destruct (Num.floor y) as [|sy|zy] eqn:Ey; try done.
      exists (Num.ofIntegral (IInt zx)), (Num.ofIntegral (Num.addZ INaN 1)).
      split; [unfold pushNeighborsAt; rewrite !elem_of_cons; auto 6|].
      unfold passesAsNaN, outOfBoundsAt. cbn in *.
      by rewrite Z.div_1_r, Hx1, Hx2.
  - destruct (fillTestAt _ _ _ _); apply IH; exists x0, y0; (split; [|done]);
      [unfold pushNeighborsAt; rewrite !elem_of_cons; auto 6 | done].
Qed.

(** A seed off the grid: the loop drops it and ends. *)
Lemma floodFillJS_off_grid fuel ctx x y fillHex :
  canvas_width ctx <> 0 -> canvas_height ctx <> 0 ->
  outOfBoundsAt (canvas_width ctx) (canvas_height ctx) (Num.floor x) (Num.floor y) = true ->
  (2 <= fuel)%nat ->
  exists peak, floodFillJS fuel ctx x y fillHex = Returned (ctx, peak) /\ (peak <= 1)%nat.
Proof.
  intros Hw Hh Hob Hfuel. unfold floodFillJS.
  rewrite getImageDataJS_some by done.
  destruct (sameColor _ _); [exists 0%nat; split; [done | lia]|].
  destruct fuel as [|[|fuel]]; [lia..|].
  cbn [floodLoopJS length]. rewrite Hob. rewrite putImageData_surface.
  exists 1%nat. split; [done | lia].
Qed.

(** A seed that does not pass the bounds test as [NaN] is off the grid or
    finite. *)
Lemma seed_cases width height x y :
  passesAsNaN width height x y = false ->
  outOfBoundsAt width height (Num.floor x) (Num.floor y) = true \/
  exists qx qy, x = Real qx /\ y = Real qy.
Proof.
  unfold passesAsNaN. destruct (outOfBoundsAt _ _ _ _) eqn:Hob; [by left|].
  cbn [negb andb]. intros Hnan. right.
  destruct x as [|sx|qx], y as [|sy|qy]; try done.
  - unfold outOfBoundsAt in Hob. cbn in Hob. by destruct sx.
  - unfold outOfBoundsAt in Hob. cbn in Hob. by destruct sx.
  - unfold outOfBoundsAt in Hob. cbn in Hob.
    destruct sy; [|by rewrite !orb_true_r in Hob].
    by rewrite orb_true_r in Hob.
  - by exists qx, qy.
Qed.

(** On a well-formed canvas that is not empty, with enough fuel, every seed
    that does not pass the bounds test as [NaN] makes [floodFillJS] return,
    the stack never above three entries a pixel and one. *)
Lemma floodFillJS_returns fuel ctx x y fillHex :
  wellFormed ctx -> canvas_width ctx <> 0 -> canvas_height ctx <> 0 ->
  passesAsNaN (canvas_width ctx) (canvas_height ctx) x y = false ->
  (enoughFuel ctx <= fuel)%nat ->
  exists ctx' peak,
    floodFillJS fuel ctx x y fillHex = Returned (ctx', peak) /\
    (peak <= 3 * Z.to_nat (canvas_width ctx * canvas_height ctx) + 1)%nat /\
    forall qx qy, x = Real qx -> y = Real qy ->
      floodFill fuel ctx qx qy fillHex = Some ctx'.
Proof.
  intros Hwf Hw Hh Hseed Hfuel.
  destruct (seed_cases _ _ _ _ Hseed) as [Hob|(qx & qy & -> & ->)].
  - destruct (floodFillJS_off_grid fuel ctx x y fillHex Hw Hh Hob) as (peak & -> & Hpk).
    { unfold enoughFuel in Hfuel. lia. }
    exists ctx, peak. split; [done|]. split; [lia|].
    intros qx qy -> ->. cbn [Num.floor] in Hob.
    change (outOfBounds (canvas_width ctx) (canvas_height ctx) (Qfloor qx) (Qfloor qy) = true)
      in Hob.
    unfold floodFill. destruct (sameColor _ _); [done|].
    unfold enoughFuel in Hfuel. destruct fuel as [|[|fuel]]; [lia..|].
    cbn [floodLoop]. rewrite Hob. by rewrite putImageData_surface.
  - rewrite floodFillJS_real by done.
    destruct (floodFill_stack_height fuel ctx qx qy fillHex Hwf Hfuel)
      as (ctx' & peak & -> & Hfill & Hpk).
    exists ctx', peak. split; [done|]. split; [done|].
    by intros ? ? [= <-] [= <-].
Qed.

(** A seed that passes the bounds test with a coordinate [NaN], on a
    canvas that is not empty: the call runs out of every fuel. *)
Lemma floodFillJS_nan_seed fuel ctx x y fillHex :
  canvas_width ctx <> 0 -> canvas_height ctx <> 0 ->
  passesAsNaN (canvas_width ctx) (canvas_height ctx) x y = true ->
  floodFillJS fuel ctx x y fillHex = OutOfFuel.
Proof.
  intros Hw Hh Hnan. unfold floodFillJS. rewrite getImageDataJS_some by done.
  assert (Hidx : Num.mulZ (Num.add (Num.mulZ (Num.floor y) (canvas_width ctx))
                             (Num.floor x)) 4 = INaN).
  { apply index_of_NaN. unfold passesAsNaN in Hnan.
    by apply andb_true_iff in Hnan as [_ ?]. }
  rewrite Hidx.
  change (readColorAt (surface ctx) INaN) with ((None, None, None, None) : Sample).
  rewrite sameColor_undefined.
  rewrite floodLoopJS_never_returns; [done|].
  exists x, y. split; [apply list_elem_of_here | done].
Qed.

End FloodFillJS.

(** C7. The loop of [floodFill] does not end for every seed: on a canvas
    that is not empty, whatever its buffer and the fill colour, with a seed
    that passes the bounds test of the loop with a coordinate [NaN] (both
    coordinates [NaN], or one [NaN] and the other on the grid) the call never
    returns: it runs out of every fuel. The target is then [undefined] four
    times, the stores of the fill are lost and each turn pushes the point
    again. *)
Theorem floodFill_nan_seed_never_returns (fuel : nat) (ctx : Context2D)
    (startX startY : Number) (fillHex : string) :
  canvas_width ctx <> 0 -> canvas_height ctx <> 0 ->
  passesAsNaN (canvas_width ctx) (canvas_height ctx) startX startY = true ->
  floodFillJS fuel ctx startX startY fillHex = OutOfFuel.
Proof. apply floodFillJS_nan_seed. Qed.

Lemma floodFill_nan_seed_never_returns_witness :
  floodFillJS 1000 sampleCanvas NaN NaN "#FF0000" = OutOfFuel /\
  floodFillJS 1000 sampleCanvas NaN (Real (1 # 2)) "#FF0000" = OutOfFuel.
Proof.
  split; apply floodFill_nan_seed_never_returns; done.
Defined.

(** A [NaN] seed that is off the grid in its other coordinate is dropped as
    every seed off the grid is. *)
Example floodFillJS_nan_off_grid :
  floodFillJS 2 sampleCanvas NaN (Real 5) "#FF0000" = Returned (sampleCanvas, 1%nat).
Proof. reflexivity. Qed.

(** X12. On a well-formed canvas, with the fuel [enoughFuel]: on an empty
    canvas [floodFill] ends by the exception of [getImageData]; on another
    canvas, for every seed but those that pass the bounds test with a
    coordinate [NaN], [floodFill] returns and its stack never holds more than
    three entries for each pixel of the canvas, and one; for a finite seed
    the canvas returned is that of [floodFill] on rationals. *)
Theorem floodFill_stack_height_every_seed (fuel : nat) (ctx : Context2D)
    (startX startY : Number) (fillHex : string) :
  wellFormed ctx -> (enoughFuel ctx <= fuel)%nat ->
  (canvas_width ctx = 0 \/ canvas_height ctx = 0 ->
   floodFillJS fuel ctx startX startY fillHex = Threw (ctx, 0%nat)) /\
  (canvas_width ctx <> 0 -> canvas_height ctx <> 0 ->
   passesAsNaN (canvas_width ctx) (canvas_height ctx) startX startY = false ->
   exists ctx' peak,
     floodFillJS fuel ctx startX startY fillHex = Returned (ctx', peak) /\
     (peak <= 3 * Z.to_nat (canvas_width ctx * canvas_height ctx) + 1)%nat /\
     forall qx qy, startX = Real qx -> startY = Real qy ->
       floodFill fuel ctx qx qy fillHex = Some ctx').
Proof.
  intros Hwf Hfuel. split; [apply floodFillJS_empty|].
  intros Hw Hh Hseed. by apply floodFillJS_returns.
Qed.

Lemma floodFill_stack_height_every_seed_witness :
  exists ctx' peak,
    floodFillJS 18 sampleCanvas (Real (1 # 2)) (Infinity false) "#FF0000" =
      Returned (ctx', peak) /\
    (peak <= 3 * Z.to_nat (2 * 2) + 1)%nat.
Proof.
  destruct (floodFill_stack_height_every_seed 18 sampleCanvas
              (Real (1 # 2)) (Infinity false) "#FF0000") as [_ Hret].
  - unfold wellFormed. cbn. lia.
  - unfold enoughFuel. cbn. lia.
  - destruct Hret as (ctx' & peak & Hrun & Hpk & _); [done..|].
    by exists ctx', peak.
Defined.

(** ** The handle and the renders *)

Section Handles.

Implicit Types (h : HistoryState) (hd : Handle) (img : string).

(** On a handle that was just rendered, [callUndo] is [undo]. *)
Lemma callUndo_fresh h :
  callUndo (freshHandle h) =
  ({| rendered := h; latest := (undo h).1 |}, (undo h).2).
Proof.
  unfold callUndo, undo, freshHandle. cbn [rendered latest].
  by destruct (0 <? currentIndex h).
Qed.

(** With a render after each call, the calls of [undo] are [undoTimes]. *)
Lemma undoRenderTimes_fresh n h :
  undoRenderTimes n (freshHandle h) =
  (freshHandle (undoTimes n h).1, (undoTimes n h).2).
Proof.
  revert h. induction n as [|n IH]; intros h; [done|].
  cbn [undoRenderTimes undoTimes]. rewrite callUndo_fresh.
  destruct (undo h) as [h1 r]. cbn [fst snd].
  change (render {| rendered := h; latest := h1 |}) with (freshHandle h1).
  rewrite IH. by destruct (undoTimes n h1).
Qed.

(** On one handle every call of [undo] sets the same cursor and asks for
    the same entry. *)
Lemma callUndoTimes_stale n hd :
  0 < currentIndex (rendered hd) ->
  callUndoTimes (S n) hd =
  ({| rendered := rendered hd;
      latest := {| history := history (latest hd);
                   currentIndex := currentIndex (rendered hd) - 1 |} |},
   replicate (S n)
     (JS.index (history (rendered hd)) (currentIndex (rendered hd) - 1))).
Proof.
  intros Hc. revert hd Hc. induction n as [|n IH]; intros hd Hc.
  - cbn [callUndoTimes]. unfold callUndo.
    by destruct (Z.ltb_spec 0 (currentIndex (rendered hd))); [|lia].
  - change (callUndoTimes (S (S n)) hd)
      with (let '(hd1, r) := callUndo hd in
            let '(hd2, rs) := callUndoTimes (S n) hd1 in
            (hd2, match r with Some i => i :: rs | None => rs end)).
    unfold callUndo at 1.
    destruct (Z.ltb_spec 0 (currentIndex (rendered hd))); [|lia].
    by rewrite IH.
Qed.

Lemma callUndoTimes_at_zero n hd :
  currentIndex (rendered hd) <= 0 -> callUndoTimes n hd = (hd, []).
Proof.
  intros Hc. induction n as [|n IH]; [done|].
  cbn [callUndoTimes]. unfold callUndo.
  destruct (Z.ltb_spec 0 (currentIndex (rendered hd))); [lia|]. by rewrite IH.
Qed.

(** The saves read the latest state: renders between them change nothing. *)
Lemma callSaveAll_latest imgs hd :
  callSaveAll imgs hd =
  {| rendered := rendered hd; latest := recordAll imgs (latest hd) |}.
Proof.
  unfold callSaveAll, recordAll. revert hd.
  induction imgs as [|img imgs IH]; intros hd; [by destruct hd|].
  cbn [foldl]. by rewrite IH.
Qed.

Lemma saveRenderAll_fresh imgs h :
  saveRenderAll imgs (freshHandle h) = freshHandle (recordAll imgs h).
Proof.
  unfold saveRenderAll, recordAll. revert h.
  induction imgs as [|img imgs IH]; intros h; [done|].
  cbn [foldl]. by rewrite <- IH.
Qed.

End Handles.

(** C4. More than 20 snapshots saved after the seeding, with no render
    between the saves or with one after each, leave once rendered exactly
    the 20 latest of them, the cursor on the last index. Then 19 calls of [undo],
    the component rendered again after each, bring the cursor to index 0,
    asking in turn for the entries 18 down to 0; and on the handle of that
    render any number of further calls, rendered or not, changes nothing and
    asks for nothing. *)
Theorem history_keeps_latest_20_rendered (seed : string) (imgs : list string) :
  (20 < length imgs)%nat ->
  let start := freshHandle (seedHistory true (Some seed) initialHistoryState) in
  let hd := render (callSaveAll imgs start) in
  let h := latest hd in
  hd = freshHandle h /\
  saveRenderAll imgs start = hd /\
  history h = drop (length imgs - 20) imgs /\
  length (history h) = 20%nat /\
  currentIndex h = 19 /\
  (undoRenderTimes 19 hd).1 =
    freshHandle {| history := history h; currentIndex := 0 |} /\
  (undoRenderTimes 19 hd).2 = Some <$> reverse (take 19 (history h)) /\
  forall n : nat,
    undoRenderTimes n (undoRenderTimes 19 hd).1 = ((undoRenderTimes 19 hd).1, []) /\
    callUndoTimes n (undoRenderTimes 19 hd).1 = ((undoRenderTimes 19 hd).1, []).
Proof.
  intros HN start hd h.
  assert (Hh : h = recordAll imgs (seedHistory true (Some seed) initialHistoryState)).
  { subst h hd start. by rewrite callSaveAll_latest. }
  assert (Hhd : hd = freshHandle h) by reflexivity.
  destruct (recordAll_then_undoTimes seed imgs HN) as (H1 & H2 & H3 & H4 & H5 & H6).
  cbn zeta in *. rewrite <- Hh in *.
  split; [done|].
  split; [subst start; by rewrite saveRenderAll_fresh, Hhd, Hh|].
  split; [done|]. split; [done|]. split; [done|].
  rewrite Hhd, undoRenderTimes_fresh. cbn [fst snd]. rewrite H4.
  split; [done|]. split; [done|].
  intros n. split.
  - rewrite undoRenderTimes_fresh, undoTimes_at_zero by (cbn; lia). done.
  - by rewrite callUndoTimes_at_zero by (cbn; lia).
Qed.

Lemma history_keeps_latest_20_rendered_witness :
  (20 < length sampleSnapshots)%nat /\
  let start := freshHandle (seedHistory true (Some "blank"%string) initialHistoryState) in
  let hd := render (callSaveAll sampleSnapshots start) in
  let h := latest hd in
  hd = freshHandle h /\
  saveRenderAll sampleSnapshots start = hd /\
  history h = drop (length sampleSnapshots - 20) sampleSnapshots /\
  length (history h) = 20%nat /\
  currentIndex h = 19 /\
  (undoRenderTimes 19 hd).1 =
    freshHandle {| history := history h; currentIndex := 0 |} /\
  (undoRenderTimes 19 hd).2 = Some <$> reverse (take 19 (history h)) /\
  forall n : nat,
    undoRenderTimes n (undoRenderTimes 19 hd).1 = ((undoRenderTimes 19 hd).1, []) /\
    callUndoTimes n (undoRenderTimes 19 hd).1 = ((undoRenderTimes 19 hd).1, []).
Proof.
  assert (H : (20 < length sampleSnapshots)%nat) by (vm_compute; lia).
  split; [exact H|].
  exact (history_keeps_latest_20_rendered "blank" sampleSnapshots H).
Defined.

(** Without the renders: after the 22 sample snapshots were saved and the
    component rendered, 19 calls of [undo] on the handle of that render leave
    the cursor on 18, not on 0, and ask 19 times for the same entry. *)
Lemma undo_on_one_handle_stays_at_18 :
  let start := freshHandle (seedHistory true (Some "blank"%string) initialHistoryState) in
  let hd := render (callSaveAll sampleSnapshots start) in
  currentIndex (latest (callUndoTimes 19 hd).1) = 18 /\
  currentIndex (latest (callUndoTimes 19 hd).1) <> 0 /\
  (callUndoTimes 19 hd).2 = replicate 19 (Some "U"%string).
Proof. by vm_compute. Qed.

(** X6. From a rendered cursor that is not negative: [n] calls of [undo]
    with a render after each leave the entries as they are and the cursor
    [n] lower, but not below 0, asking for as many restores as the cursor
    went down, those of the entries below the first cursor, from the nearest
    down; calls on one handle with no render between them all set the cursor
    one below the rendered one and ask for that same entry each time. *)
Theorem undo_calls_cursor (n : nat) (h : HistoryState) :
  0 <= currentIndex h ->
  undoRenderTimes n (freshHandle h) =
    (freshHandle {| history := history h;
                    currentIndex := Z.max 0 (currentIndex h - Z.of_nat n) |},
     (fun k : nat => JS.index (history h) (currentIndex h - 1 - Z.of_nat k)) <$>
       seq 0 (Nat.min n (Z.to_nat (currentIndex h)))) /\
  (0 < currentIndex h ->
   callUndoTimes (S n) (freshHandle h) =
     ({| rendered := h;
         latest := {| history := history h; currentIndex := currentIndex h - 1 |} |},
      replicate (S n) (JS.index (history h) (currentIndex h - 1)))).
Proof.
  intros Hc. split.
  - rewrite undoRenderTimes_fresh.
    by destruct (undoTimes_cursor n h Hc) as [-> ->].
  - intros Hpos. by rewrite callUndoTimes_stale.
Qed.

Lemma undo_calls_cursor_witness :
  undoRenderTimes 2 (freshHandle (mkHistoryState ["a"; "b"; "c"; "d"]%string 3)) =
    (freshHandle (mkHistoryState ["a"; "b"; "c"; "d"]%string 1),
     [Some "c"%string; Some "b"%string]) /\
  callUndoTimes 2 (freshHandle (mkHistoryState ["a"; "b"; "c"; "d"]%string 3)) =
    ({| rendered := mkHistoryState ["a"; "b"; "c"; "d"]%string 3;
        latest := mkHistoryState ["a"; "b"; "c"; "d"]%string 2 |},
     [Some "c"%string; Some "c"%string]).
Proof.
  destruct (undo_calls_cursor 1 (mkHistoryState ["a"; "b"; "c"; "d"]%string 3))
    as [_ Hstale]; [cbn; lia|].
  destruct (undo_calls_cursor 2 (mkHistoryState ["a"; "b"; "c"; "d"]%string 3))
    as [Hrender _]; [cbn; lia|].
  split; [exact Hrender | apply Hstale; cbn; lia].
Defined.

(** X7. Whatever the number of snapshots saved after the seeding, after the
    next render the entries are the last 20 of the blank snapshot followed by
    the saved ones, the cursor on the last. With fewer than 20 saved nothing
    is lost, and as many calls of [undo] as there were saves, with a render
    after each, end on cursor 0 by asking for the blank snapshot; with 20 or
    more the blank snapshot is gone. *)
Theorem saves_from_seed_rendered (blank : string) (imgs : list string) :
  let start := freshHandle (seedHistory true (Some blank) initialHistoryState) in
  let hd := render (callSaveAll imgs start) in
  let h := latest hd in
  let all := blank :: imgs in
  hd = freshHandle h /\
  history h = drop (length all - 20) all /\
  currentIndex h = Z.of_nat (Nat.min (length all) 20) - 1 /\
  ((length imgs < 20)%nat ->
     history h = blank :: imgs /\
     (imgs <> [] ->
      last (undoRenderTimes (length imgs) hd).2 = Some (Some blank)) /\
     currentIndex (latest (undoRenderTimes (length imgs) hd).1) = 0) /\
  ((20 <= length imgs)%nat -> history h = drop (length imgs - 20) imgs).
Proof.
  intros start hd h all.
  assert (Hh : h = recordAll imgs (seedHistory true (Some blank) initialHistoryState)).
  { subst h hd start. by rewrite callSaveAll_latest. }
  assert (Hhd : hd = freshHandle h) by reflexivity.
  destruct (recordAll_from_seed blank imgs) as (H1 & H2 & H3 & H4).
  cbn zeta in *. rewrite <- Hh in *. fold all in H1, H2.
  split; [done|]. split; [done|]. split; [done|]. split; [|done].
  intros Hlt. destruct (H3 Hlt) as (E1 & E2 & E3).
  rewrite Hhd, undoRenderTimes_fresh. cbn [fst snd latest freshHandle]. done.
Qed.

Lemma saves_from_seed_rendered_witness :
  let start := freshHandle (seedHistory true (Some "blank"%string) initialHistoryState) in
  let hd := render (callSaveAll ["a"; "b"]%string start) in
  history (latest hd) = ["blank"; "a"; "b"]%string /\
  last (undoRenderTimes 2 hd).2 = Some (Some "blank"%string) /\
  currentIndex (latest (undoRenderTimes 2 hd).1) = 0.
Proof.
  destruct (saves_from_seed_rendered "blank" ["a"; "b"]%string)
    as (_ & _ & _ & Hsmall & _).
  destruct Hsmall as (H1 & H2 & H3); [cbn; lia|].
  split; [exact H1|]. split; [by apply H2 | exact H3].
Defined.

(** ** The pointer handlers with their canvas calls *)

Section HandlersJS.

Implicit Types (w : Widget) (i : PointerInput) (inputs : list PointerInput).

Lemma readThrows_false w :
  readThrows w = false <-> widget_width w <> 0 /\ widget_height w <> 0.
Proof.
  unfold readThrows. rewrite orb_false_iff, !Z.eqb_neq. done.
Qed.

Lemma readThrows_true w :
  readThrows w = true <-> widget_width w = 0 \/ widget_height w = 0.
Proof.
  unfold readThrows. rewrite orb_true_iff, !Z.eqb_eq. done.
Qed.

(** [draw] leaves the state as it is, whether it returns or throws. *)
Lemma drawJS_state i w : drawJS i w = Returned w \/ drawJS i w = Threw w.
Proof.
  unfold drawJS.
  repeat (match goal with
          | |- context [if ?b then _ else _] => destruct b
          | |- context [match widget_startPoint w with _ => _ end] =>
              destruct (widget_startPoint w)
          end); auto.
Qed.

Lemma handleAllJS_moves fuel inputs w :
  Forall (fun i => pointer_kind i = Move) inputs ->
  handleAllJS fuel inputs w = Some w.
Proof.
  induction 1 as [|i inputs Hi Hall IH]; [done|].
  cbn [handleAllJS]. unfold handleJS. rewrite Hi.
  by destruct (drawJS_state i w) as [-> | ->].
Qed.

Lemma handleJS_idle fuel i w :
  widget_isDrawing w = false -> pointer_kind i <> Down ->
  handleJS fuel i w = Returned w.
Proof.
  intros Hd Hk. unfold handleJS, drawJS, stopDrawingJS. rewrite Hd.
  destruct (pointer_kind i); [done | ..]; by destruct (widget_context w).
Qed.

(** Nothing but a mouse down starts anything. *)
Lemma handleAllJS_idle fuel inputs w :
  widget_isDrawing w = false ->
  Forall (fun i => pointer_kind i <> Down) inputs ->
  handleAllJS fuel inputs w = Some w.
Proof.
  intros Hd. induction 1 as [|i inputs Hi Hall IH]; [done|].
  cbn [handleAllJS]. by rewrite handleJS_idle.
Qed.

Lemma handleAllJS_app fuel inputs inputs' w :
  handleAllJS fuel (inputs ++ inputs') w =
  match handleAllJS fuel inputs w with
  | Some w' => handleAllJS fuel inputs' w'
  | None => None
  end.
Proof.
  revert w. induction inputs as [|i inputs IH]; intros w; [done|].
  cbn [handleAllJS app]. by destruct (handleJS fuel i w).
Qed.

(** The handlers with their canvas calls keep the invariant of the history
    and do nothing without the context, as the state updates alone do. *)
Lemma handleJS_invariant fuel i w :
  historyInvariant (widget_history w) ->
  match handleJS fuel i w with
  | Returned w' | Threw w' => historyInvariant (widget_history w')
  | OutOfFuel => True
  end.
Proof.
  intros Hinv. unfold handleJS, startDrawingJS, drawJS, stopDrawingJS.
  destruct (pointer_kind i);
    repeat (match goal with
            | |- context [if ?b then _ else _] => destruct b
            | |- context [match widget_startPoint w with _ => _ end] =>
                destruct (widget_startPoint w)
            | |- context [match floodFillJS ?f ?c ?x ?y ?h with _ => _ end] =>
                destruct (floodFillJS f c x y h)
            end);
    cbn [widget_history withHistory withDrawing saveCanvasState];
    try done; by apply record_keeps_invariant.
Qed.

Lemma handleAllJS_invariant fuel inputs w w' :
  historyInvariant (widget_history w) ->
  handleAllJS fuel inputs w = Some w' ->
  historyInvariant (widget_history w').
Proof.
  revert w. induction inputs as [|i inputs IH]; intros w Hinv; cbn [handleAllJS].
  { by intros [= <-]. }
  assert (H := handleJS_invariant fuel i w Hinv).
  destruct (handleJS fuel i w); [by apply IH | by apply IH | done].
Qed.

Lemma handleAllJS_no_context fuel inputs w :
  widget_context w = false -> handleAllJS fuel inputs w = Some w.
Proof.
  intros Hctx. induction inputs as [|i inputs IH]; [done|].
  cbn [handleAllJS]. replace (handleJS fuel i w) with (Returned w); [done|].
  unfold handleJS, startDrawingJS, drawJS, stopDrawingJS. rewrite Hctx.
  destruct (pointer_kind i); cbn [negb]; try done.
  by rewrite orb_true_r.
Qed.

End HandlersJS.

(** X15. A mouse down with the fill tool, on a widget that has its context
    and is not drawing. On an empty canvas [floodFill] throws and nothing is
    recorded. On a canvas that is not empty, with a well-formed buffer and
    the fuel [enoughFuel], when the point does not pass the bounds test with
    a coordinate [NaN], one snapshot is recorded and no gesture starts:
    whatever events follow before the next mouse down, the state is the first
    state with that one snapshot recorded. When the point passes the bounds
    test with a coordinate [NaN], the handler does not return. *)
Theorem fill_click_on_canvas (fuel : nat) (i : PointerInput)
    (rest : list PointerInput) (w : Widget) :
  pointer_kind i = Down -> pointer_tool i = "fill"%string ->
  widget_context w = true -> widget_isDrawing w = false ->
  Forall (fun j => pointer_kind j <> Down) rest ->
  (readThrows w = true ->
   startDrawingJS fuel i w = Threw w /\
   handleAllJS fuel (i :: rest) w = Some w) /\
  (readThrows w = false ->
   wellFormed (widgetCanvas w (pointer_pixels i)) ->
   passesAsNaN (widget_width w) (widget_height w) (pointer_x i) (pointer_y i) = false ->
   (enoughFuel (widgetCanvas w (pointer_pixels i)) <= fuel)%nat ->
   handleAllJS fuel (i :: rest) w =
   Some (withHistory w (record (pointer_canvas i) (widget_history w)))) /\
  (readThrows w = false ->
   passesAsNaN (widget_width w) (widget_height w) (pointer_x i) (pointer_y i) = true ->
   startDrawingJS fuel i w = OutOfFuel /\
   handleAllJS fuel (i :: rest) w = None).
Proof.
  intros Hk Htool Hctx Hd Hrest.
  assert (Hstart : handleJS fuel i w = startDrawingJS fuel i w)
    by (unfold handleJS; by rewrite Hk).
  assert (Hfill : startDrawingJS fuel i w =
            match floodFillJS fuel (widgetCanvas w (pointer_pixels i))
                    (pointer_x i) (pointer_y i) (pointer_color i) with
            | Returned _ =>
                Returned (withHistory w (record (pointer_canvas i) (widget_history w)))
            | Threw _ => Threw w
            | OutOfFuel => OutOfFuel
            end).
  { unfold startDrawingJS. by rewrite Hctx, Htool. }
  cbn [handleAllJS]. rewrite Hstart, Hfill. split; [|split].
  - intros Hempty%readThrows_true.
    rewrite floodFillJS_empty by done. split; [done|].
    by apply handleAllJS_idle.
  - intros [Hw Hh]%readThrows_false Hwf Hseed Hfuel.
    destruct (floodFillJS_returns fuel _ _ _ (pointer_color i) Hwf Hw Hh Hseed Hfuel)
      as (ctx' & peak & -> & _).
    by apply handleAllJS_idle.
  - intros [Hw Hh]%readThrows_false Hseed.
    by rewrite floodFillJS_nan_seed.
Qed.

Lemma fill_click_on_canvas_witness :
  handleAllJS 18 [samplePointer Down "fill" "filled"; samplePointer Move "fill" "m";
                  samplePointer Up "fill" "u"] sampleWidget =
    Some (withHistory sampleWidget
            (mkHistoryState ["a"; "b"; "c"; "d"; "filled"]%string 4)) /\
  startDrawingJS 18 (samplePointer Down "fill" "filled") emptyWidget = Threw emptyWidget.
Proof.
  assert (Hrest : Forall (fun j => pointer_kind j <> Down)
            [samplePointer Move "fill" "m"; samplePointer Up "fill" "u"])
    by (repeat constructor; done).
  split.
  - refine (proj1 (proj2 (fill_click_on_canvas 18 (samplePointer Down "fill" "filled")
              _ sampleWidget eq_refl eq_refl eq_refl eq_refl Hrest)) eq_refl _ eq_refl _).
    + unfold wellFormed. cbn. lia.
    + unfold enoughFuel. cbn. lia.
  - refine (proj1 (proj1 (fill_click_on_canvas 18 (samplePointer Down "fill" "filled")
              [] emptyWidget eq_refl eq_refl eq_refl eq_refl (Forall_nil_2 _)) eq_refl)).
Defined.

(** X16. A gesture with a tool other than fill, on a widget that has its
    context: a mouse down, moves, then a release or a leave. On a canvas that
    is not empty, or with the brush at the mouse down and at the release, the
    gesture records one snapshot, the canvas at the release, and the widget is
    no longer drawing; with a shape tool at the release the first point is
    forgotten; the state stays so until the next mouse down. On an empty
    canvas with a shape tool at the mouse down and at the release, the reads
    of the canvas throw: nothing is recorded and the widget stays drawing,
    with the first point of the gesture. *)
Theorem gesture_on_canvas (fuel : nat) (down : PointerInput)
    (moves : list PointerInput) (up : PointerInput) (rest : list PointerInput)
    (w : Widget) :
  widget_context w = true ->
  pointer_kind down = Down -> pointer_tool down <> "fill"%string ->
  Forall (fun i => pointer_kind i = Move) moves ->
  pointer_kind up = Up \/ pointer_kind up = Leave ->
  Forall (fun i => pointer_kind i <> Down) rest ->
  (readThrows w = false \/
   (pointer_tool down = "brush"%string /\ pointer_tool up = "brush"%string) ->
   exists w',
     handleAllJS fuel (down :: moves ++ up :: rest) w = Some w' /\
     widget_history w' = record (pointer_canvas up) (widget_history w) /\
     widget_isDrawing w' = false /\
     (pointer_tool up <> "brush"%string -> widget_startPoint w' = None)) /\
  (readThrows w = true ->
   pointer_tool down <> "brush"%string -> pointer_tool up <> "brush"%string ->
   handleAllJS fuel (down :: moves ++ up :: rest) w =
   handleAllJS fuel rest
     (withDrawing w true (Some (pointer_x down, pointer_y down))) /\
   handleAllJS fuel (down :: moves ++ [up]) w =
   Some (withDrawing w true (Some (pointer_x down, pointer_y down)))).
Proof.
  intros Hctx Hk Htool Hmoves Hup Hrest.
  apply String.eqb_neq in Htool.
  assert (Hstop : handleJS fuel up = stopDrawingJS true up).
  { unfold handleJS. by destruct Hup as [-> | ->]. }
  assert (Hdown : handleJS fuel down w = startDrawingJS fuel down w)
    by (unfold handleJS; by rewrite Hk).
  split.
  - intros Hcase.
    assert (exists p,
      handleJS fuel down w = Returned (withDrawing w true p) /\
      (pointer_tool up = "brush"%string \/ readThrows w = false)) as (p & Hd & Hcase').
    { rewrite Hdown. unfold startDrawingJS. rewrite Hctx, Htool. cbn [negb].
      destruct (String.eqb (pointer_tool down) "brush") eqn:Hb.
      - exists (widget_startPoint w). split; [done|].
        destruct Hcase as [?|[_ ?]]; auto.
      - apply String.eqb_neq in Hb.
        destruct Hcase as [Hr|[? _]]; [|done]. rewrite Hr.
        exists (Some (pointer_x down, pointer_y down)). auto. }
    cbn [handleAllJS]. rewrite Hd.
    rewrite handleAllJS_app, handleAllJS_moves by done.
    cbn [handleAllJS]. rewrite Hstop.
    set (wd := withDrawing w true p).
    assert (exists p',
      stopDrawingJS true up wd =
        Returned (withHistory (withDrawing wd false p')
                    (record (pointer_canvas up) (widget_history w))) /\
      (pointer_tool up <> "brush"%string -> p' = None)) as (p' & -> & Hp').
    { unfold stopDrawingJS. cbn [wd withDrawing widget_context widget_isDrawing
        widget_startPoint widget_history saveCanvasState]. rewrite Hctx. cbn [negb].
      destruct (String.eqb (pointer_tool up) "brush") eqn:Hb.
      - apply String.eqb_eq in Hb. exists p. split; [done|]. by intros ?.
      - apply String.eqb_neq in Hb. destruct Hcase' as [?|Hr]; [done|].
        exists None. split; [|done].
        destruct p as [p|]; [|done].
        assert (Hr' : readThrows wd = false) by exact Hr.
        by rewrite Hr'. }
    eexists. split; [by apply handleAllJS_idle|].
    cbn [withHistory withDrawing widget_history widget_isDrawing widget_startPoint].
    done.
  - intros Hr Hb1 Hb2.
    apply String.eqb_neq in Hb1. apply String.eqb_neq in Hb2.
    set (wd := withDrawing w true (Some (pointer_x down, pointer_y down))).
    assert (Hd : handleJS fuel down w = Threw wd).
    { rewrite Hdown. unfold startDrawingJS. rewrite Hctx, Htool, Hb1. cbn [negb].
      by rewrite Hr. }
    assert (Hu : handleJS fuel up wd = Threw wd).
    { rewrite Hstop. unfold stopDrawingJS.
      cbn [wd withDrawing widget_context widget_isDrawing widget_startPoint].
      rewrite Hctx, Hb2. cbn [negb].
      assert (Hr' : readThrows wd = true) by exact Hr.
      by rewrite Hr'. }
    split.
    + cbn [handleAllJS]. rewrite Hd.
      rewrite handleAllJS_app, handleAllJS_moves by done.
      cbn [handleAllJS]. by rewrite Hu.
    + cbn [handleAllJS]. rewrite Hd.
      rewrite handleAllJS_app, handleAllJS_moves by done.
      cbn [handleAllJS]. by rewrite Hu.
Qed.

Lemma gesture_on_canvas_witness :
  (exists w',
     handleAllJS 0 [samplePointer Down "line" "d"; samplePointer Move "line" "m";
                    samplePointer Up "line" "lined"; samplePointer Leave "line" "l"]
       sampleWidget = Some w' /\
     widget_history w' = mkHistoryState ["a"; "b"; "c"; "d"; "lined"]%string 4 /\
     widget_isDrawing w' = false /\ widget_startPoint w' = None) /\
  handleAllJS 0 [samplePointer Down "line" "d"; samplePointer Move "line" "m";
                 samplePointer Up "line" "lined"] emptyWidget =
    Some (withDrawing emptyWidget true (Some (Real (1 # 2), Real (1 # 2)))).
Proof.
  assert (Hmoves : Forall (fun i => pointer_kind i = Move) [samplePointer Move "line" "m"])
    by (repeat constructor; done).
  assert (Hrest : Forall (fun i => pointer_kind i <> Down) [samplePointer Leave "line" "l"])
    by (repeat constructor; done).
  assert (Hline : ("line" <> "fill")%string) by done.
  assert (Hshape : ("line" <> "brush")%string) by done.
  split.
  - destruct (proj1 (gesture_on_canvas 0 (samplePointer Down "line" "d") _
                (samplePointer Up "line" "lined") _ sampleWidget
                eq_refl eq_refl Hline Hmoves (or_introl eq_refl) Hrest)
                (or_introl eq_refl)) as (w' & Hrun & Hh & Hd & Hp).
    exists w'. split; [exact Hrun|]. split; [exact Hh|]. split; [exact Hd|].
    exact (Hp Hshape).
  - exact (proj2 (proj2 (gesture_on_canvas 0 (samplePointer Down "line" "d") _
                (samplePointer Up "line" "lined") [] emptyWidget
                eq_refl eq_refl Hline Hmoves (or_introl eq_refl) (Forall_nil_2 _))
                eq_refl Hshape Hshape)).
Defined.
